(** * lm_eval/tasks/cnn_dailymail.py: the CNN / DailyMail summarisation task

    A shallow embedding of the task class [CNN_DailyMail] and of its pruned
    variant, followed by the properties of document normalisation, prompt
    rendering, ROUGE scoring and length-based pruning.

    Conventions of the embedding
    - a Python [str] is the list of its Unicode code points ([list N]);
    - a Python exception is a constructor of [exn], and code that may raise
      returns a [result];
    - the generators [training_docs], [validation_docs] and [test_docs] are
      the list of documents they yield together with the exception that ends
      the iteration, if any;
    - the closure state of [prune] (the [cache] dict) and the calls made to
      the tokenizers are threaded explicitly through [_filter];
    - the packages [rouge_score], [transformers] and [datasets] are not part
      of this file of the repository: the first two are taken as parameters,
      and [Dataset.filter] is the sequential pass over the rows. *)

From Stdlib Require Import NArith ZArith QArith String Ascii List Lia.
From stdpp Require Import base option list gmap.

Set Default Proof Using "Type".
Local Open Scope N_scope.

(** ** Python strings *)

Abbreviation char := N (only parsing).
Abbreviation str := (list N) (only parsing).

(** A literal of printable ASCII characters. *)
Definition lit (s : string) : str :=
  List.map N_of_ascii (list_ascii_of_string s).

Definition NL : char := 10.    (* "\n" *)
Definition SPACE : char := 32. (* " " *)
Definition DOT : char := 46.   (* "." *)

(** [str.isspace] on one code point: the characters [str.strip()] removes. *)
Definition isspace (c : char) : bool :=
  ((9 <=? c) && (c <=? 13)) || ((28 <=? c) && (c <=? 32))
  || (c =? 133) || (c =? 160) || (c =? 5760)
  || ((8192 <=? c) && (c <=? 8202))
  || (c =? 8232) || (c =? 8233) || (c =? 8239) || (c =? 8287) || (c =? 12288).

Fixpoint lstrip (s : str) : str :=
  match s with
  | c :: r => if isspace c then lstrip r else s
  | [] => []
  end.

Definition rstrip (s : str) : str := rev (lstrip (rev s)).

(** [s.strip()] *)
Definition strip (s : str) : str := rstrip (lstrip s).

(** A string with no white space at either end. *)
Definition trimmed (t : str) : Prop :=
  lstrip t = t /\ lstrip (rev t) = rev t.

(** [s.startswith(p)], returning the rest of [s] after [p]. *)
Fixpoint strip_prefix (p s : str) : option str :=
  match p, s with
  | [], _ => Some s
  | a :: p', b :: s' => if a =? b then strip_prefix p' s' else None
  | _ :: _, [] => None
  end.

(** [s.replace(old, new)]: scan from the left; at an occurrence of [old]
    emit [new] and resume after the occurrence, otherwise copy one character.
    [fuel] bounds the number of scan steps, [length s] always suffices. *)
Fixpoint replace_scan (fuel : nat) (old new s : str) : str :=
  match fuel with
  | O => s
  | S fuel' =>
      match s with
      | [] => []
      | c :: r =>
          match strip_prefix old s with
          | Some rest => new ++ replace_scan fuel' old new rest
          | None => c :: replace_scan fuel' old new r
          end
      end
  end.

Definition str_replace (old new s : str) : str :=
  match old with
  | [] => new ++ flat_map (fun c => c :: new) s
  | _ :: _ => replace_scan (length s) old new s
  end.

(** [old in s] *)
Fixpoint occurs (old s : str) : bool :=
  match strip_prefix old s with
  | Some _ => true
  | None => match s with [] => false | _ :: r => occurs old r end
  end.

(** ** Exceptions *)

Inductive exn : Set := IndexError | KeyError | TypeError.

Inductive result (A : Type) : Type :=
  | Ok (a : A)
  | Raise (e : exn).
Arguments Ok {A} a.
Arguments Raise {A} e.

#[global] Instance result_ret : MRet result := fun _ a => Ok a.
#[global] Instance result_bind : MBind result := fun _ _ f m =>
  match m with Ok a => f a | Raise e => Raise e end.

(** [s[-1]] *)
Definition getitem_last (s : str) : result char :=
  match last s with
  | Some c => Ok c
  | None => Raise IndexError
  end.

(** [l[0]] *)
Definition getitem_0 {A} (l : list A) : result A :=
  match l with
  | a :: _ => Ok a
  | [] => Raise IndexError
  end.

(** ** Documents and the dataset *)

Record Doc : Set := mkDoc { article : str; highlights : str }.

Definition set_article (d : Doc) (v : str) : Doc :=
  {| article := v; highlights := highlights d |}.
Definition set_highlights (d : Doc) (v : str) : Doc :=
  {| article := article d; highlights := v |}.

Record Dataset : Set := mkDataset {
  train : list Doc;
  validation : list Doc;
  test : list Doc
}.

(** ** The task: document iteration and rendering *)

Definition _process_doc (doc : Doc) : list Doc :=
  let doc := set_article doc (strip (article doc)) in
  let doc := set_highlights doc (strip (highlights doc)) in
  [doc].

(** The body of the [for doc in self.dataset[...]] loops, up to the
    [yield from]: the documents to yield, or the exception raised. *)
Definition normalize_doc (doc : Doc) : result (list Doc) :=
  let answer := strip (highlights doc) in
  c ← getitem_last answer;
  let doc :=
    if negb (c =? DOT) then set_highlights doc (answer ++ [DOT])
    else set_highlights doc answer in
  Ok (_process_doc doc).

(** A generator run to its end: what it yielded and how it stopped. *)
Fixpoint docs_of (split : list Doc) : list Doc * option exn :=
  match split with
  | [] => ([], None)
  | doc :: rest =>
      match normalize_doc doc with
      | Raise e => ([], Some e)
      | Ok ys => let '(zs, stop) := docs_of rest in (ys ++ zs, stop)
      end
  end.

Definition training_docs (dataset : Dataset) := docs_of (train dataset).
Definition validation_docs (dataset : Dataset) := docs_of (validation dataset).
Definition test_docs (dataset : Dataset) := docs_of (test dataset).

Definition prompt_suffix : str :=
  [NL; NL] ++ lit "Question: What is a summary of the preceding text?"
  ++ [NL] ++ lit "Answer:".

Definition doc_to_text (doc : Doc) : str := article doc ++ prompt_suffix.

Definition doc_to_target (doc : Doc) : str :=
  let target := highlights doc in
  lit " " ++ target.

(** [_prepare_summary], the helper local to [rouge]. *)
Definition _prepare_summary (summary : str) : str :=
  str_replace (lit " . ") (DOT :: NL :: []) summary.

(** ** ROUGE scoring *)

(** The four score types of [rouge_score] that this file names, and the
    metric names the task reports (the same strings). *)
Inductive rouge_type : Set := rouge1 | rouge2 | rougeL | rougeLsum.

#[global] Instance rouge_type_eq_dec : EqDecision rouge_type.
Proof. solve_decision. Defined.

(** [scoring.Score] and [scoring.AggregateScore] over a type of floats. *)
Record Score (F : Type) : Type := mkScore {
  precision : F;
  recall : F;
  fmeasure : F
}.
Arguments mkScore {F}.
Arguments precision {F}.
Arguments recall {F}.
Arguments fmeasure {F}.

Record AggregateScore (F : Type) : Type := mkAggregateScore {
  low : Score F;
  mid : Score F;
  high : Score F
}.
Arguments mkAggregateScore {F}.
Arguments low {F}.
Arguments mid {F}.
Arguments high {F}.

(** What the task needs from the [rouge_score] package and from Python's
    floats:
    - [score_type t target prediction] is the entry for [t] of
      [RougeScorer(types).score(target, prediction)], for [t] in [types];
    - [bootstrap t scores] is the low/mid/high estimate that
      [BootstrapAggregator.aggregate] computes by resampling the scores
      recorded for [t] (one outcome of the random resampling);
    - [times100 x] is [x * 100]. *)
Class RougeScore : Type := {
  float : Type;
  score_type : rouge_type -> str -> str -> Score float;
  bootstrap : rouge_type -> list (Score float) -> AggregateScore float;
  times100 : float -> float
}.

(** A Python dict with keys in [K], in insertion order. *)
Definition dict (K V : Type) : Type := list (K * V).

Fixpoint dict_get {K V} `{EqDecision K} (d : dict K V) (k : K) : option V :=
  match d with
  | [] => None
  | (k', v) :: r => if decide (k = k') then Some v else dict_get r k
  end.

(** [d[k]] *)
Definition getitem {K V} `{EqDecision K} (d : dict K V) (k : K) : result V :=
  match dict_get d k with
  | Some v => Ok v
  | None => Raise KeyError
  end.

(** [{k: f(k) for k in keys}] for distinct [keys], [f] possibly raising. *)
Fixpoint dict_comprehension {K V} (f : K -> result V) (keys : list K)
  : result (dict K V) :=
  match keys with
  | [] => Ok []
  | k :: r =>
      v ← f k;
      d ← dict_comprehension f r;
      Ok ((k, v) :: d)
  end.

Section Rouge.
Context {RS : RougeScore}.

(** [RougeScorer(rouge_types).score(target, prediction)] *)
Definition scorer_score (rouge_types : list rouge_type)
    (target prediction : str) : dict rouge_type (Score float) :=
  List.map (fun t => (t, score_type t target prediction)) rouge_types.

(** [BootstrapAggregator]: [_scores] is a [defaultdict(list)]. *)
Definition Aggregator : Type := dict rouge_type (list (Score float)).

(** [self._scores[score_type].append(score)] *)
Fixpoint append_score (agg : Aggregator) (t : rouge_type)
    (s : Score float) : Aggregator :=
  match agg with
  | [] => [(t, [s])]
  | (t', l) :: r =>
      if decide (t = t') then (t', l ++ [s]) :: r
      else (t', l) :: append_score r t s
  end.

Definition add_scores (agg : Aggregator)
    (scores : dict rouge_type (Score float)) : Aggregator :=
  fold_left (fun a '(t, s) => append_score a t s) scores agg.

Definition aggregate (agg : Aggregator)
  : dict rouge_type (AggregateScore float) :=
  List.map (fun '(t, l) => (t, bootstrap t l)) agg.

Definition rouge_types : list rouge_type := [rouge1; rouge2; rougeLsum].

(** The score dicts handed to [aggregator.add_scores], in order. *)
Definition rouge_scores (refs preds : list str)
  : list (dict rouge_type (Score float)) :=
  List.map (fun '(ref, pred) =>
              let ref := _prepare_summary ref in
              let pred := _prepare_summary pred in
              scorer_score rouge_types ref pred)
           (combine refs preds).

(** The scores of one type over a list of (reference, prediction) pairs:
    what [aggregator._scores[t]] holds after the loop of [rouge]. *)
Definition score_column (t : rouge_type) (pairs : list (str * str))
  : list (Score float) :=
  List.map (fun '(ref, pred) =>
              score_type t (_prepare_summary ref) (_prepare_summary pred))
           pairs.

Definition rouge (refs preds : list str) : result (dict rouge_type float) :=
  let aggregator := fold_left add_scores (rouge_scores refs preds) [] in
  let result := aggregate aggregator in
  dict_comprehension
    (fun type => a ← getitem result type; Ok (times100 (fmeasure (mid a))))
    rouge_types.

Definition process_results (doc : Doc) (results : list str)
  : result (dict rouge_type float) :=
  r0 ← getitem_0 results;
  let completion := strip r0 in
  let ref := highlights doc in
  rouge_score ← rouge [ref] [completion];
  rouge1_ ← getitem rouge_score rouge1;
  rouge2_ ← getitem rouge_score rouge2;
  rougeL_ ← getitem rouge_score rougeLsum;
  Ok [(rouge1, rouge1_); (rouge2, rouge2_); (rougeL, rougeL_)].
End Rouge.

(** ** A reference instance of the scoring package

    The algorithms of [rouge_score] that stand behind [RougeScore]:
    tokenisation, n-gram overlap, LCS over whole token sequences ([rougeL])
    and summary-level union LCS over newline-separated sentences
    ([rougeLsum]). Floats are exact rationals here, and the bootstrap is the
    run in which every resample draws the first recorded score, which is the
    only possible run when one score was recorded. *)
Module RougeScoreRef.

(** [text.lower()], as far as membership in [a-z0-9] can tell: besides
    [A-Z] only U+0130 and U+212A lower-case to an ASCII letter. *)
Definition lower_char (c : char) : str :=
  if (65 <=? c) && (c <=? 90) then [c + 32]
  else if c =? 304 then [105; 775]
  else if c =? 8490 then [107]
  else [c].

Definition lower (text : str) : str := flat_map lower_char text.

Definition is_token_char (c : char) : bool :=
  ((48 <=? c) && (c <=? 57)) || ((97 <=? c) && (c <=? 122)).

(** The maximal runs of [a-z0-9]; [cur] is the current run, reversed. *)
Fixpoint token_runs (cur : str) (text : str) : list str :=
  match text with
  | [] => match cur with [] => [] | _ :: _ => [rev cur] end
  | c :: r =>
      if is_token_char c then token_runs (c :: cur) r
      else match cur with
           | [] => token_runs [] r
           | _ :: _ => rev cur :: token_runs [] r
           end
  end.

Definition tokenize (text : str) : list str := token_runs [] (lower text).

(** [text.split(sep)] for a one-character separator. *)
Fixpoint split_on (sep : char) (cur : str) (text : str) : list str :=
  match text with
  | [] => [rev cur]
  | c :: r =>
      if c =? sep then rev cur :: split_on sep [] r
      else split_on sep (c :: cur) r
  end.

Definition get_sents (text : str) : list str :=
  List.filter (fun x => negb (Nat.eqb (length x) 0)) (split_on NL [] text).

(** Entry [t[i][j]] of [_lcs_table(ref, can)], given the prefixes
    [ref[:i]] and [can[:j]] in reverse. *)
Fixpoint lcs_entry (a b : list str) : nat :=
  match a with
  | [] => O
  | x :: a' =>
      (fix row (b : list str) : nat :=
         match b with
         | [] => O
         | y :: b' =>
             if decide (x = y) then S (lcs_entry a' b')
             else Nat.max (lcs_entry a' (y :: b')) (row b')
         end) b
  end.

(** [_backtrack_norec]: the indices into [ref] of one LCS, increasing. *)
Fixpoint backtrack (a b : list str) : list nat :=
  match a with
  | [] => []
  | x :: a' =>
      (fix walk (b : list str) : list nat :=
         match b with
         | [] => []
         | y :: b' =>
             if decide (x = y) then backtrack a' b' ++ [length a']
             else if Nat.ltb (lcs_entry a' (y :: b')) (lcs_entry (x :: a') b')
                  then walk b'
                  else backtrack a' (y :: b')
         end) b
  end.

Definition lcs_ind (ref can : list str) : list nat :=
  backtrack (rev ref) (rev can).

(** [_union_lcs]: the tokens of [ref] at the sorted union of the indices. *)
Definition _union_lcs (ref : list str) (c_list : list (list str))
  : list str :=
  let lcs_list := List.map (lcs_ind ref) c_list in
  List.map snd
    (List.filter
       (fun '(i, _) => existsb (existsb (Nat.eqb i)) lcs_list)
       (combine (seq 0 (length ref)) ref)).

Definition fmeasure_of (p r : Q) : Q :=
  if Qle_bool (p + r) 0 then 0%Q else Qred (2 * p * r / (p + r))%Q.

Definition ratio (a b : nat) : Q :=
  Qred (inject_Z (Z.of_nat a) / inject_Z (Z.of_nat b))%Q.

Definition zero_score : Score Q := mkScore 0%Q 0%Q 0%Q.

Definition _score_lcs (target_tokens prediction_tokens : list str)
  : Score Q :=
  match target_tokens, prediction_tokens with
  | [], _ | _, [] => zero_score
  | _, _ =>
      let lcs_length :=
        lcs_entry (rev target_tokens) (rev prediction_tokens) in
      let p := ratio lcs_length (length prediction_tokens) in
      let r := ratio lcs_length (length target_tokens) in
      mkScore p r (fmeasure_of p r)
  end.

(** A [collections.Counter] over tokens. *)
Definition Counter : Type := str -> nat.

Definition count_of {A} `{EqDecision A} (l : list A) (x : A) : nat :=
  length (List.filter (fun y => bool_decide (y = x)) l).

Definition counter_of (tokens : list str) : Counter := count_of tokens.

Definition counter_dec (c : Counter) (t : str) : Counter :=
  fun t' => if decide (t' = t) then Nat.pred (c t') else c t'.

(** The inner loop [for t in lcs] of [_summary_level_lcs]. *)
Definition count_hits (st : nat * Counter * Counter) (lcs : list str)
  : nat * Counter * Counter :=
  fold_left
    (fun '(hits, cnts_c, cnts_r) t =>
       if Nat.ltb 0 (cnts_c t) && Nat.ltb 0 (cnts_r t)
       then (S hits, counter_dec cnts_c t, counter_dec cnts_r t)
       else (hits, cnts_c, cnts_r))
    lcs st.

Definition _summary_level_lcs (ref_sent can_sent : list (list str))
  : Score Q :=
  match ref_sent, can_sent with
  | [], _ | _, [] => zero_score
  | _, _ =>
      let m := length (concat ref_sent) in
      let n := length (concat can_sent) in
      if Nat.eqb n 0 || Nat.eqb m 0 then zero_score
      else
        let token_cnts_r := counter_of (concat ref_sent) in
        let token_cnts_c := counter_of (concat can_sent) in
        let '(hits, _, _) :=
          fold_left
            (fun st r => count_hits st (_union_lcs r can_sent))
            ref_sent (O, token_cnts_c, token_cnts_r) in
        let r := ratio hits m in
        let p := ratio hits n in
        mkScore p r (fmeasure_of p r)
  end.

(** [_create_ngrams], as the list of n-grams with repetitions. *)
Definition _create_ngrams (tokens : list str) (n : nat)
  : list (list str) :=
  List.map (fun i => firstn n (skipn i tokens))
           (seq 0 (length tokens + 1 - n)).

Definition _score_ngrams (target_ngrams prediction_ngrams : list (list str))
  : Score Q :=
  let intersection_ngrams_count :=
    list_sum
      (List.map (fun ngram => Nat.min (count_of target_ngrams ngram)
                                      (count_of prediction_ngrams ngram))
                (remove_dups target_ngrams)) in
  let p := ratio intersection_ngrams_count
                 (Nat.max (length prediction_ngrams) 1) in
  let r := ratio intersection_ngrams_count
                 (Nat.max (length target_ngrams) 1) in
  mkScore p r (fmeasure_of p r).

Definition score (t : rouge_type) (target prediction : str) : Score Q :=
  match t with
  | rougeL => _score_lcs (tokenize target) (tokenize prediction)
  | rougeLsum =>
      _summary_level_lcs (List.map tokenize (get_sents target))
                         (List.map tokenize (get_sents prediction))
  | rouge1 =>
      _score_ngrams (_create_ngrams (tokenize target) 1)
                    (_create_ngrams (tokenize prediction) 1)
  | rouge2 =>
      _score_ngrams (_create_ngrams (tokenize target) 2)
                    (_create_ngrams (tokenize prediction) 2)
  end.

Definition first_draw (scores : list (Score Q)) : AggregateScore Q :=
  match scores with
  | s :: _ => mkAggregateScore s s s
  | [] => mkAggregateScore zero_score zero_score zero_score
  end.

#[local] Instance pkg : RougeScore := {|
  float := Q;
  score_type := score;
  bootstrap := fun _ => first_draw;
  times100 := fun x => Qred (x * 100)%Q
|}.

End RougeScoreRef.

(** ** Pruning by prompt length *)

(** The class attributes a task variant sets; [None] is Python's [None]. *)
Record Variant : Type := mkVariant {
  PRUNE_TOKENIZERS : option (list str);
  PRUNE_MAX_TOKENS : option Z;
  PRUNE_NUM_PROC : option Z
}.

Definition CNN_DailyMail : Variant := mkVariant None None None.

(** [cores] is what [_num_cpu_cores()] returned when the class was made. *)
Definition CNN_DailyMail_Short (cores : option Z) : Variant :=
  mkVariant (Some [lit "PY007/TinyLlama-1.1B-Chat-v0.3"]) (Some 1280%Z) cores.

(** A loaded tokenizer: the identifier it was loaded from and the
    [input_ids] it computes for a text. *)
Record Tokenizer : Type := mkTokenizer {
  name_or_path : str;
  input_ids : str -> list Z
}.

(** The state the closure [_filter] works on: the [cache] dict of [prune]
    and the tokenizer invocations made so far (tokenizer, text), oldest
    first. *)
Record FilterState : Type := mkFilterState {
  cache : gmap str bool;
  calls : list (str * str)
}.

Definition init_state : FilterState := mkFilterState ∅ [].

Definition cache_set (st : FilterState) (text : str) (b : bool)
  : FilterState :=
  mkFilterState (<[text := b]> (cache st)) (calls st).

Definition record_call (st : FilterState) (tokenizer : Tokenizer)
    (text : str) : FilterState :=
  mkFilterState (cache st) (calls st ++ [(name_or_path tokenizer, text)]).

(** [a > b] for an int [a] and [b] an int or [None]. *)
Definition int_gt (a : Z) (b : option Z) : result bool :=
  match b with
  | Some b => Ok (b <? a)%Z
  | None => Raise TypeError
  end.

(** [is not None] *)
Definition is_not_None {A} (x : option A) : bool :=
  match x with Some _ => true | None => false end.

Definition _get_prune_text (sample : Doc) : result str :=
  doc ← getitem_0 (_process_doc sample);
  Ok (doc_to_text doc).

Section Prune.
(** [pretrained name text] is
    [AutoTokenizer.from_pretrained(name)(text).input_ids]. *)
Variable pretrained : str -> str -> list Z.

Definition from_pretrained (tokenizer : str) : Tokenizer :=
  mkTokenizer tokenizer (pretrained tokenizer).

Variable self : Variant.

(** The [for tokenizer in tokenizers] loop of [_filter] and the two
    statements after it. *)
Fixpoint filter_loop (tokenizers : list Tokenizer) (text : str)
    (st : FilterState) : result bool * FilterState :=
  match tokenizers with
  | [] => (Ok true, cache_set st text true)
  | tokenizer :: rest =>
      let ids := input_ids tokenizer text in
      let st := record_call st tokenizer text in
      match int_gt (Z.of_nat (length ids)) (PRUNE_MAX_TOKENS self) with
      | Raise e => (Raise e, st)
      | Ok true => (Ok false, cache_set st text false)
      | Ok false => filter_loop rest text st
      end
  end.

Definition _filter (tokenizers : list Tokenizer) (sample : Doc)
    (st : FilterState) : result bool * FilterState :=
  match _get_prune_text sample with
  | Raise e => (Raise e, st)
  | Ok text =>
      let cached := cache st !! text in
      match cached with
      | None => filter_loop tokenizers text st
      | Some cached => (Ok cached, st)
      end
  end.

(** [Dataset.filter(function)] over the rows of one split, in order. *)
Fixpoint filter_rows (function : Doc -> FilterState -> result bool * FilterState)
    (rows : list Doc) (st : FilterState)
  : result (list Doc) * FilterState :=
  match rows with
  | [] => (Ok [], st)
  | row :: rest =>
      match function row st with
      | (Raise e, st) => (Raise e, st)
      | (Ok keep, st) =>
          match filter_rows function rest st with
          | (Raise e, st) => (Raise e, st)
          | (Ok kept, st) => (Ok (if keep then row :: kept else kept), st)
          end
      end
  end.

(** [DatasetDict.filter(function)]: split by split. *)
Definition dataset_filter
    (function : Doc -> FilterState -> result bool * FilterState)
    (dataset : Dataset) (st : FilterState)
  : result Dataset * FilterState :=
  match filter_rows function (train dataset) st with
  | (Raise e, st) => (Raise e, st)
  | (Ok tr, st) =>
      match filter_rows function (validation dataset) st with
      | (Raise e, st) => (Raise e, st)
      | (Ok va, st) =>
          match filter_rows function (test dataset) st with
          | (Raise e, st) => (Raise e, st)
          | (Ok te, st) => (Ok (mkDataset tr va te), st)
          end
      end
  end.

(** [prune]: the new value of [self.dataset], or the exception, and the
    final state of the closure. *)
Definition prune (dataset : Dataset) : result Dataset * FilterState :=
  match PRUNE_TOKENIZERS self with
  | None => (Raise TypeError, init_state)
  | Some names =>
      let tokenizers := List.map from_pretrained names in
      dataset_filter (_filter tokenizers) dataset init_state
  end.

(** [download], after [super().download] has set [self.dataset] to
    [loaded]. *)
Definition download (loaded : Dataset) : result Dataset * FilterState :=
  if is_not_None (PRUNE_TOKENIZERS self)
     && is_not_None (PRUNE_TOKENIZERS self)
  then prune loaded
  else (Ok loaded, init_state).

(** The check recomputed without the cache, in the words of the
    specification: the text has at most [max_tokens] tokens under every
    tokenizer. *)
Definition within_budget (max_tokens : Z) (tokenizers : list Tokenizer)
    (text : str) : bool :=
  forallb (fun tokenizer =>
             (Z.of_nat (length (input_ids tokenizer text)) <=? max_tokens)%Z)
          tokenizers.

(** The tokenizers up to and including the first one over the budget. *)
Fixpoint consulted (max_tokens : Z) (tokenizers : list Tokenizer)
    (text : str) : list Tokenizer :=
  match tokenizers with
  | [] => []
  | tokenizer :: rest =>
      if (max_tokens <? Z.of_nat (length (input_ids tokenizer text)))%Z
      then [tokenizer]
      else tokenizer :: consulted max_tokens rest text
  end.

(** The entry of [calls] for one invocation. *)
Definition call_entry (text : str) (tokenizer : Tokenizer) : str * str :=
  (name_or_path tokenizer, text).

(** The cache holds nothing but verdicts of the uncached check. *)
Definition cache_sound (max_tokens : Z) (tokenizers : list Tokenizer)
    (st : FilterState) : Prop :=
  forall text b,
    cache st !! text = Some b -> b = within_budget max_tokens tokenizers text.

(** [_filter] applied to the samples in turn: the answers and the final
    state. *)
Fixpoint filter_each (tokenizers : list Tokenizer) (samples : list Doc)
    (st : FilterState) : list (result bool) * FilterState :=
  match samples with
  | [] => ([], st)
  | sample :: rest =>
      let '(r, st) := _filter tokenizers sample st in
      let '(rs, st) := filter_each tokenizers rest st in
      (r :: rs, st)
  end.
End Prune.

(** ** The rest of the task interface *)

(** [aggregation()]: each reported metric is aggregated with [mean], the
    function of [lm_eval.metrics], which is a parameter here. *)
Definition aggregation {F : Type} (mean : list F -> F)
  : dict rouge_type (list F -> F) :=
  [(rouge1, mean); (rouge2, mean); (rougeL, mean)].

Definition higher_is_better : dict rouge_type bool :=
  [(rouge1, true); (rouge2, true); (rougeL, true)].

(** The keys of a dict, in order. *)
Definition keys {K V} (d : dict K V) : list K := List.map fst d.

(** The verdict of the uncached check on the prompt of a sample. *)
Definition keeps (max_tokens : Z) (tokenizers : list Tokenizer)
    (sample : Doc) : bool :=
  match _get_prune_text sample with
  | Ok text => within_budget max_tokens tokenizers text
  | Raise _ => false
  end.

(** All the rows of a dataset, split after split. *)
Definition rows (dataset : Dataset) : list Doc :=
  train dataset ++ validation dataset ++ test dataset.

(** The characters of a string that are not white space. *)
Definition non_blank (s : str) : str :=
  List.filter (fun c => negb (isspace c)) s.

(** ** Concrete inputs for the examples *)
Module Examples.

(** A tokenizer that emits one id per code point. *)
Definition one_per_char (name text : str) : list Z := List.map Z.of_N text.

Definition doc_ab : Doc := mkDoc (lit "a") (lit " a b ").
Definition doc_ab' : Doc := mkDoc (lit " a ") (lit "c.").

Definition doc_abc : Doc := mkDoc (lit "ab") (lit "c.").

(** The length of the prompt rendered for [doc_ab]. *)
Definition len_ab : Z := 61.

Definition variant_t : Variant := mkVariant (Some [lit "t"]) (Some len_ab) None.

Definition tokenizers_t : list Tokenizer :=
  [from_pretrained one_per_char (lit "t")].

End Examples.

(** * Properties *)

(** ** Strings *)

Lemma isspace_DOT : isspace DOT = false.
Proof. reflexivity. Qed.

Lemma lstrip_length (s : str) : (length (lstrip s) <= length s)%nat.
Proof. induction s as [|c r IH]; simpl; [lia|]. destruct (isspace c); simpl; lia. Qed.

Lemma lstrip_cons_fix (c : char) (r : str) :
  lstrip (c :: r) = c :: r <-> isspace c = false.
Proof.
  simpl. destruct (isspace c) eqn:E; split; intros H; try done.
  pose proof (lstrip_length r) as L. rewrite H in L. simpl in L. lia.
Qed.

Lemma lstrip_idem (s : str) : lstrip (lstrip s) = lstrip s.
Proof.
  induction s as [|c r IH]; simpl; [done|].
  destruct (isspace c) eqn:E; [done|]. simpl. by rewrite E.
Qed.

Lemma lstrip_split (s : str) :
  exists p, s = p ++ lstrip s /\ forallb isspace p = true.
Proof.
  induction s as [|c r [p [E F]]]; simpl.
  - by exists [].
  - destruct (isspace c) eqn:C.
    + exists (c :: p). simpl. rewrite C, F. split; [by f_equal|done].
    + by exists [].
Qed.

Lemma rstrip_split (s : str) :
  exists q, s = rstrip s ++ q /\ forallb isspace q = true.
Proof.
  destruct (lstrip_split (rev s)) as [p [E F]].
  exists (rev p). split.
  - unfold rstrip. rewrite <- rev_app_distr, <- E. by rewrite rev_involutive.
  - rewrite forallb_forall in *. intros x Hx. apply F. by apply in_rev.
Qed.

Lemma strip_trimmed (s : str) : trimmed (strip s).
Proof.
  unfold trimmed, strip. split.
  - destruct (rstrip_split (lstrip s)) as [q [E _]].
    pose proof (lstrip_idem s) as H.
    destruct (rstrip (lstrip s)) as [|c r] eqn:R; [done|].
    rewrite E in H. change ((c :: r) ++ q) with (c :: (r ++ q)) in H.
    apply lstrip_cons_fix in H. by apply lstrip_cons_fix.
  - unfold rstrip. rewrite rev_involutive. apply lstrip_idem.
Qed.

Lemma trimmed_strip (t : str) : trimmed t -> strip t = t.
Proof.
  intros [L R]. unfold strip, rstrip. rewrite L, R. apply rev_involutive.
Qed.

Lemma strip_idem (s : str) : strip (strip s) = strip s.
Proof. apply trimmed_strip, strip_trimmed. Qed.

Lemma trimmed_last (t : str) (c : char) :
  trimmed t -> last t = Some c -> isspace c = false.
Proof.
  intros [_ R] H. apply last_Some in H as [l ->].
  rewrite rev_app_distr in R. simpl in R. by apply lstrip_cons_fix in R.
Qed.

Lemma trimmed_snoc_DOT (t : str) : trimmed t -> t <> [] -> trimmed (t ++ [DOT]).
Proof.
  intros [L R] N. split.
  - destruct t as [|c r]; [done|]. apply lstrip_cons_fix in L.
    change ((c :: r) ++ [DOT]) with (c :: (r ++ [DOT])). by apply lstrip_cons_fix.
  - rewrite rev_app_distr. simpl. done.
Qed.

(** ** Document normalisation *)

Lemma normalize_doc_empty (doc : Doc) :
  strip (highlights doc) = [] -> normalize_doc doc = Raise IndexError.
Proof. intros E. unfold normalize_doc, getitem_last. by rewrite E. Qed.

Lemma normalize_doc_append (doc : Doc) (c : char) :
  last (strip (highlights doc)) = Some c -> c <> DOT ->
  normalize_doc doc =
    Ok [mkDoc (strip (article doc)) (strip (highlights doc) ++ [DOT])].
Proof.
  intros L N. unfold normalize_doc, getitem_last. rewrite L. simpl.
  apply N.eqb_neq in N. rewrite N. simpl.
  unfold _process_doc, set_highlights, set_article. simpl.
  rewrite (trimmed_strip (strip (highlights doc) ++ [DOT])); [done|].
  apply trimmed_snoc_DOT; [apply strip_trimmed|].
  intros E. by rewrite E in L.
Qed.

Lemma normalize_doc_keep (doc : Doc) :
  last (strip (highlights doc)) = Some DOT ->
  normalize_doc doc = Ok [mkDoc (strip (article doc)) (strip (highlights doc))].
Proof.
  intros L. unfold normalize_doc, getitem_last. rewrite L. simpl.
  unfold _process_doc, set_highlights, set_article. simpl.
  by rewrite strip_idem.
Qed.

Lemma normalize_doc_yields (doc : Doc) (ys : list Doc) :
  normalize_doc doc = Ok ys ->
  exists d, ys = [d] /\ highlights d <> [] /\ last (highlights d) = Some DOT.
Proof.
  intros H. destruct (last (strip (highlights doc))) as [c|] eqn:L.
  - destruct (decide (c = DOT)) as [->|N].
    + rewrite (normalize_doc_keep _ L) in H. injection H as <-.
      eexists; split; [done|]. simpl. split; [|done].
      intros E. by rewrite E in L.
    + rewrite (normalize_doc_append _ _ L N) in H. injection H as <-.
      eexists; split; [done|]. simpl. split; [|apply last_snoc].
      by destruct (strip (highlights doc)).
  - apply last_None in L. by rewrite (normalize_doc_empty _ L) in H.
Qed.

Lemma docs_of_yields (split : list Doc) (d : Doc) :
  In d (fst (docs_of split)) ->
  highlights d <> [] /\ last (highlights d) = Some DOT.
Proof.
  induction split as [|doc rest IH]; simpl; [done|].
  destruct (normalize_doc doc) as [ys|e] eqn:E; simpl; [|done].
  destruct (docs_of rest) as [zs stop]. simpl in *.
  intros H. apply in_app_or in H as [H|H]; [|by apply IH].
  apply normalize_doc_yields in E as [d' [-> P]].
  destruct H as [<-|[]]. exact P.
Qed.

(** C7. A document whose stripped [highlights] is non-empty and does not end
    in "." is yielded with [highlights] equal to the stripped text followed
    by one ".": the character before that "." is neither white space nor
    another ".". Every document the three iterators yield has a non-empty
    [highlights] that ends with ".". *)
Theorem normalized_highlights_end_in_period :
  (forall doc : Doc,
      strip (highlights doc) <> [] ->
      last (strip (highlights doc)) <> Some DOT ->
      exists c : char,
        last (strip (highlights doc)) = Some c /\
        isspace c = false /\ c <> DOT /\
        normalize_doc doc =
          Ok [mkDoc (strip (article doc)) (strip (highlights doc) ++ [DOT])])
  /\ (forall (dataset : Dataset) (d : Doc),
        In d (fst (training_docs dataset) ++ fst (validation_docs dataset)
              ++ fst (test_docs dataset)) ->
        highlights d <> [] /\ last (highlights d) = Some DOT).
Proof.
  split.
  - intros doc NE ND.
    destruct (last (strip (highlights doc))) as [c|] eqn:L.
    + exists c. split; [done|]. split; [|split].
      * eapply trimmed_last; [apply strip_trimmed|exact L].
      * intros ->. by apply ND.
      * eapply normalize_doc_append; [exact L|]. intros ->. by apply ND.
    + by apply last_None in L.
  - intros dataset d H.
    unfold training_docs, validation_docs, test_docs in H.
    apply in_app_or in H as [H|H]; [by eapply docs_of_yields|].
    apply in_app_or in H as [H|H]; by eapply docs_of_yields.
Qed.

Lemma normalized_highlights_end_in_period_witness :
  normalize_doc Examples.doc_ab = Ok [mkDoc (lit "a") (lit "a b.")]
  /\ last (highlights (mkDoc (lit "a") (lit "a b."))) = Some DOT.
Proof.
  destruct normalized_highlights_end_in_period as [A B].
  split.
  - destruct (A Examples.doc_ab) as [c [_ [_ [_ E]]]].
    + vm_compute. discriminate.
    + vm_compute. discriminate.
    + exact E.
  - apply (B (mkDataset [Examples.doc_ab] [] [])).
    vm_compute. left. reflexivity.
Defined.

Lemma strip_blank (s : str) : forallb isspace s = true -> strip s = [].
Proof.
  intros H. unfold strip, rstrip.
  assert (E : lstrip s = []); [|by rewrite E].
  induction s as [|c r IH]; [done|]. simpl in *.
  apply andb_true_iff in H as [-> H]. by apply IH.
Qed.

(** C3. The iterators raise on every document whose [highlights] strips to
    the empty string: [answer[-1]] is evaluated on the empty string before
    anything tests for it, so the generator stops with [IndexError] and
    yields nothing from that document on. *)
Theorem blank_highlights_raise_IndexError :
  forall (doc : Doc) (rest va te : list Doc),
    strip (highlights doc) = [] ->
    normalize_doc doc = Raise IndexError
    /\ training_docs (mkDataset (doc :: rest) va te) = ([], Some IndexError)
    /\ validation_docs (mkDataset va (doc :: rest) te) = ([], Some IndexError)
    /\ test_docs (mkDataset va te (doc :: rest)) = ([], Some IndexError).
Proof.
  intros doc rest va te H.
  pose proof (normalize_doc_empty doc H) as E.
  unfold training_docs, validation_docs, test_docs. simpl docs_of.
  rewrite E. done.
Qed.

Lemma blank_highlights_raise_IndexError_witness :
  training_docs (mkDataset [mkDoc (lit "x") (lit "   ")] [] [])
  = ([], Some IndexError).
Proof.
  apply (blank_highlights_raise_IndexError
           (mkDoc (lit "x") (lit "   ")) [] [] []).
  vm_compute. reflexivity.
Defined.

(** ** Rendering *)

(** C8. [doc_to_text] is the article followed by the fixed question
    template, and [doc_to_target] is one space followed by [highlights]. *)
Theorem rendering_templates :
  forall doc : Doc,
    doc_to_text doc =
      article doc ++ [NL; NL]
      ++ lit "Question: What is a summary of the preceding text?"
      ++ [NL] ++ lit "Answer:"
    /\ doc_to_target doc = SPACE :: highlights doc.
Proof. intros doc. split; reflexivity. Qed.

(** ** [str.replace] and the preparation of summaries *)

Lemma strip_prefix_Some (p s rest : str) :
  strip_prefix p s = Some rest -> s = p ++ rest.
Proof.
  revert s. induction p as [|a p IH]; intros s H; simpl in *.
  - congruence.
  - destruct s as [|b s]; [done|].
    destruct (a =? b) eqn:E; [|done].
    apply N.eqb_eq in E as ->. f_equal. by apply IH.
Qed.

Lemma strip_prefix_app (p b : str) : strip_prefix p (p ++ b) = Some b.
Proof. induction p as [|a p IH]; simpl; [done|]. by rewrite N.eqb_refl. Qed.

Lemma strip_prefix_app_Some (p s t rest : str) :
  strip_prefix p (s ++ t) = Some rest -> (length p <= length s)%nat ->
  exists rest', strip_prefix p s = Some rest'.
Proof.
  revert s. induction p as [|a p IH]; intros s H L; simpl in *.
  - by eexists.
  - destruct s as [|b s]; simpl in *; [lia|].
    destruct (a =? b); [|done]. apply IH; [done|lia].
Qed.

Lemma occurs_unfold (old s : str) :
  occurs old s =
    match strip_prefix old s with
    | Some _ => true
    | None => match s with [] => false | _ :: r => occurs old r end
    end.
Proof. by destruct s. Qed.

Lemma occurs_false (old s : str) :
  occurs old s = false -> forall a b, s <> a ++ old ++ b.
Proof.
  intros H a. revert s H. induction a as [|c a IH]; intros s H b E; subst s;
    rewrite occurs_unfold in H.
  - simpl app in H. by rewrite strip_prefix_app in H.
  - simpl app in H.
    destruct (strip_prefix old (c :: a ++ old ++ b)); [done|].
    by eapply IH.
Qed.

Lemma replace_scan_fuel (o : char) (old new : str) (f1 f2 : nat) (s : str) :
  (length s <= f1)%nat -> (length s <= f2)%nat ->
  replace_scan f1 (o :: old) new s = replace_scan f2 (o :: old) new s.
Proof.
  revert f2 s. induction f1 as [|f1 IH]; intros f2 s L1 L2.
  - destruct s; simpl in *; [|lia]. by destruct f2.
  - destruct s as [|c r]; [by destruct f2|].
    destruct f2 as [|f2]; simpl in L1, L2; [lia|].
    cbn [replace_scan].
    destruct (strip_prefix (o :: old) (c :: r)) as [rest|] eqn:E.
    + apply strip_prefix_Some, (f_equal length) in E.
      rewrite length_app in E. simpl in E.
      f_equal. apply IH; lia.
    + f_equal. apply IH; lia.
Qed.

Lemma str_replace_nil (o : char) (old new : str) :
  str_replace (o :: old) new [] = [].
Proof. reflexivity. Qed.

Lemma str_replace_match (o : char) (old new s rest : str) :
  strip_prefix (o :: old) s = Some rest ->
  str_replace (o :: old) new s = new ++ str_replace (o :: old) new rest.
Proof.
  intros E. unfold str_replace. destruct s as [|c r]; [done|].
  cbn [length replace_scan]. rewrite E. f_equal.
  apply strip_prefix_Some, (f_equal length) in E.
  rewrite length_app in E. simpl in E.
  apply replace_scan_fuel; lia.
Qed.

Lemma str_replace_copy (o : char) (old new : str) (c : char) (r : str) :
  strip_prefix (o :: old) (c :: r) = None ->
  str_replace (o :: old) new (c :: r) = c :: str_replace (o :: old) new r.
Proof.
  intros E. unfold str_replace. cbn [length replace_scan]. by rewrite E.
Qed.

Lemma str_replace_absent (o : char) (old new s : str) :
  (forall a b, s <> a ++ (o :: old) ++ b) ->
  str_replace (o :: old) new s = s.
Proof.
  induction s as [|c r IH]; intros H; [done|].
  rewrite str_replace_copy.
  - f_equal. apply IH. intros a b ->. by apply (H (c :: a) b).
  - destruct (strip_prefix (o :: old) (c :: r)) as [rest|] eqn:E; [|done].
    apply strip_prefix_Some in E. by destruct (H [] rest).
Qed.

Lemma str_replace_leftmost (o : char) (old new a b : str) :
  (forall a' b', a ++ removelast (o :: old) <> a' ++ (o :: old) ++ b') ->
  str_replace (o :: old) new (a ++ (o :: old) ++ b)
  = a ++ new ++ str_replace (o :: old) new b.
Proof.
  induction a as [|c a IH]; intros H.
  - rewrite !app_nil_l. apply str_replace_match, strip_prefix_app.
  - rewrite <- !app_comm_cons. rewrite str_replace_copy.
    + f_equal. apply IH. intros a' b' E. apply (H (c :: a') b').
      rewrite <- !app_comm_cons. by rewrite E.
    + destruct (strip_prefix (o :: old) (c :: a ++ (o :: old) ++ b))
        as [rest|] eqn:E; [|done].
      exfalso.
      assert (S : (o :: old) = removelast (o :: old) ++ [List.last (o :: old) o]).
      { apply app_removelast_last. done. }
      rewrite S in E at 2. rewrite <- !app_assoc in E.
      change (c :: a ++ ?x) with ((c :: a) ++ x) in E. rewrite app_assoc in E.
      apply strip_prefix_app_Some in E as [rest' E].
      * apply strip_prefix_Some in E. by apply (H [] rest').
      * rewrite length_app. rewrite S at 1. rewrite length_app. simpl. lia.
Qed.

(** C2, counterexample. In "A . B ." the last "." is followed by no space,
    so it is not an occurrence of " . " and keeps the space before it: the
    result is not "A.", newline, "B.". *)
Lemma prepare_summary_A_B_differs :
  _prepare_summary (lit "A . B .") <> lit "A." ++ [NL] ++ lit "B.".
Proof. vm_compute. discriminate. Qed.

(** C2 (amended). [_prepare_summary] rewrites the occurrences of " . " found
    scanning from the left, each to "." and a newline, and copies every
    other character: a string without " . " is returned as it is, and at
    the leftmost occurrence the text before it is kept, the occurrence is
    replaced and the scan resumes after it. "A . B ." becomes "A.", newline,
    "B ." (the final " ." stays), and in "A . . B" the second " . " shares
    its first space with the first one and is not rewritten. *)
Theorem prepare_summary_replaces_padded_periods :
  _prepare_summary (lit "A . B .") = lit "A." ++ [NL] ++ lit "B ."
  /\ _prepare_summary (lit "A . . B") = lit "A." ++ [NL] ++ lit ". B"
  /\ (forall s : str,
        (forall a b, s <> a ++ lit " . " ++ b) -> _prepare_summary s = s)
  /\ (forall a b : str,
        (forall a' b', a ++ lit " ." <> a' ++ lit " . " ++ b') ->
        _prepare_summary (a ++ lit " . " ++ b)
        = a ++ [DOT; NL] ++ _prepare_summary b).
Proof.
  split; [reflexivity|]. split; [reflexivity|]. unfold _prepare_summary.
  change (lit " . ") with (SPACE :: [DOT; SPACE]).
  split.
  - intros s H. by apply str_replace_absent.
  - intros a b H. by apply str_replace_leftmost.
Qed.

Lemma prepare_summary_replaces_padded_periods_witness :
  _prepare_summary (lit "A. B") = lit "A. B"
  /\ _prepare_summary (lit "A" ++ lit " . " ++ lit "B . C")
     = lit "A" ++ [DOT; NL] ++ _prepare_summary (lit "B . C").
Proof.
  destruct prepare_summary_replaces_padded_periods as [_ [_ [A B]]].
  split.
  - apply A. apply occurs_false. vm_compute. reflexivity.
  - apply B. apply occurs_false. vm_compute. reflexivity.
Defined.

(** ** ROUGE scoring *)

Section RougeFacts.
Context {RS : RougeScore}.

Lemma rouge_scores_cons (ref pred : str) (refs preds : list str) :
  rouge_scores (ref :: refs) (pred :: preds)
  = scorer_score rouge_types (_prepare_summary ref) (_prepare_summary pred)
    :: rouge_scores refs preds.
Proof. reflexivity. Qed.

Lemma fold_add_scores (pairs : list (str * str)) (l1 l2 l3 : list (Score float)) :
  fold_left add_scores
    (List.map (fun '(ref, pred) =>
                 scorer_score rouge_types (_prepare_summary ref)
                              (_prepare_summary pred)) pairs)
    [(rouge1, l1); (rouge2, l2); (rougeLsum, l3)]
  = [(rouge1, l1 ++ score_column rouge1 pairs);
     (rouge2, l2 ++ score_column rouge2 pairs);
     (rougeLsum, l3 ++ score_column rougeLsum pairs)].
Proof.
  revert l1 l2 l3. induction pairs as [|[ref pred] pairs IH]; intros l1 l2 l3.
  - simpl. by rewrite !app_nil_r.
  - cbn [List.map fold_left].
    change (add_scores _ _) with
      [(rouge1, l1 ++ [score_type rouge1 (_prepare_summary ref) (_prepare_summary pred)]);
       (rouge2, l2 ++ [score_type rouge2 (_prepare_summary ref) (_prepare_summary pred)]);
       (rougeLsum, l3 ++ [score_type rougeLsum (_prepare_summary ref) (_prepare_summary pred)])].
    rewrite IH. unfold score_column. cbn [List.map]. by rewrite <- !app_assoc.
Qed.

Lemma rouge_nonempty (ref pred : str) (refs preds : list str) :
  rouge (ref :: refs) (pred :: preds)
  = Ok (List.map
          (fun t => (t, times100 (fmeasure (mid (bootstrap t
                          (score_column t (combine (ref :: refs) (pred :: preds))))))))
          rouge_types).
Proof.
  unfold rouge. rewrite rouge_scores_cons. cbn [fold_left].
  change (add_scores [] _) with
    [(rouge1, [score_type rouge1 (_prepare_summary ref) (_prepare_summary pred)]);
     (rouge2, [score_type rouge2 (_prepare_summary ref) (_prepare_summary pred)]);
     (rougeLsum, [score_type rougeLsum (_prepare_summary ref) (_prepare_summary pred)])].
  unfold rouge_scores. rewrite fold_add_scores. reflexivity.
Qed.

Lemma rouge_no_pair (refs preds : list str) :
  refs = [] \/ preds = [] -> rouge refs preds = Raise KeyError.
Proof.
  intros [-> | ->]; [reflexivity|].
  unfold rouge, rouge_scores. by rewrite combine_nil.
Qed.

Lemma combine_take {A B} (l : list A) (l' : list B) :
  combine (take (Nat.min (length l) (length l')) l)
          (take (Nat.min (length l) (length l')) l')
  = combine l l'.
Proof.
  revert l'. induction l as [|a l IH]; intros [|b l']; simpl; try done.
  by rewrite IH.
Qed.

Lemma rouge_scores_lookup (refs preds : list str) (i : nat) (ref pred : str) :
  refs !! i = Some ref -> preds !! i = Some pred ->
  rouge_scores refs preds !! i
  = Some (scorer_score rouge_types (_prepare_summary ref)
                       (_prepare_summary pred)).
Proof.
  revert preds i. induction refs as [|r refs IH]; intros [|p preds] [|i];
    simpl; try done.
  - by intros [= ->] [= ->].
  - apply IH.
Qed.

Lemma process_results_cons (doc : Doc) (r0 : str) (rest : list str) :
  let v t := times100 (fmeasure (mid (bootstrap t
               [score_type t (_prepare_summary (highlights doc))
                             (_prepare_summary (strip r0))]))) in
  rouge [highlights doc] [strip r0]
    = Ok [(rouge1, v rouge1); (rouge2, v rouge2); (rougeLsum, v rougeLsum)]
  /\ process_results doc (r0 :: rest)
    = Ok [(rouge1, v rouge1); (rouge2, v rouge2); (rougeL, v rougeLsum)].
Proof.
  intros v. assert (E : rouge [highlights doc] [strip r0]
    = Ok [(rouge1, v rouge1); (rouge2, v rouge2); (rougeLsum, v rougeLsum)]).
  { by rewrite rouge_nonempty. }
  split; [exact E|]. unfold process_results. cbn [getitem_0 mbind result_bind].
  rewrite E. reflexivity.
Qed.
End RougeFacts.

(** C9. [process_results] scores the stripped first completion: the call it
    makes is [rouge([ref], [results[0].strip()])], the one pair the scorer
    sees is the reference and that stripped completion (both after
    [_prepare_summary]), and the three reported values are read off that
    call's result. An empty [results] has no first completion:
    [results[0]] raises. *)
Theorem process_results_strips_completion :
  forall (RS : RougeScore) (doc : Doc),
  process_results doc [] = Raise IndexError
  /\ forall (r0 : str) (rest : list str),
  exists (rouge_score : dict rouge_type float) (v1 v2 vL : float),
    rouge [highlights doc] [strip r0] = Ok rouge_score
    /\ rouge_scores [highlights doc] [strip r0]
       = [scorer_score rouge_types (_prepare_summary (highlights doc))
                       (_prepare_summary (strip r0))]
    /\ getitem rouge_score rouge1 = Ok v1
    /\ getitem rouge_score rouge2 = Ok v2
    /\ getitem rouge_score rougeLsum = Ok vL
    /\ process_results doc (r0 :: rest)
       = Ok [(rouge1, v1); (rouge2, v2); (rougeL, vL)].
Proof.
  intros RS doc. split; [reflexivity|]. intros r0 rest.
  destruct (process_results_cons doc r0 rest) as [E P].
  eexists _, _, _, _. split; [exact E|]. split; [reflexivity|].
  split; [reflexivity|]. split; [reflexivity|]. split; [reflexivity|].
  exact P.
Qed.

(** C10, counterexample. With no reference and one prediction the lengths
    differ, no pair is scored, the aggregate has no entry, and the lookup of
    [result["rouge1"]] raises. *)
Lemma rouge_empty_refs_raises :
  rouge (RS := RougeScoreRef.pkg) [] [lit "a"] = Raise KeyError.
Proof. reflexivity. Qed.

(** C10 (amended). [rouge] scores the positional pairs of [zip(refs, preds)]:
    there are [min(len(refs), len(preds))] of them, the i-th is made of the
    i-th reference and the i-th prediction, and the result is the one for
    the two lists cut to that length, so what exceeds it is ignored. With
    both lists non-empty no exception is raised, whatever the lengths; with
    an empty list nothing is scored and the lookup of the aggregate raises
    [KeyError]. *)
Theorem rouge_scores_zipped_pairs :
  forall (RS : RougeScore) (refs preds : list str),
    let k := Nat.min (length refs) (length preds) in
    length (rouge_scores refs preds) = k
    /\ (forall (i : nat) (ref pred : str),
          refs !! i = Some ref -> preds !! i = Some pred ->
          rouge_scores refs preds !! i
          = Some (scorer_score rouge_types (_prepare_summary ref)
                               (_prepare_summary pred)))
    /\ rouge refs preds = rouge (take k refs) (take k preds)
    /\ (refs <> [] -> preds <> [] -> exists r, rouge refs preds = Ok r)
    /\ (refs = [] \/ preds = [] -> rouge refs preds = Raise KeyError).
Proof.
  intros RS refs preds k. split; [|split; [|split; [|split]]].
  - unfold rouge_scores. by rewrite length_map, length_combine.
  - intros i ref pred. apply rouge_scores_lookup.
  - unfold rouge, rouge_scores. subst k. by rewrite combine_take.
  - intros Hr Hp. destruct refs as [|ref refs]; [done|].
    destruct preds as [|pred preds]; [done|].
    rewrite rouge_nonempty. by eexists.
  - apply rouge_no_pair.
Qed.

Lemma rouge_scores_zipped_pairs_witness :
  length (rouge_scores (RS := RougeScoreRef.pkg)
            [lit "a b."; lit "c."] [lit "a b."]) = 1%nat
  /\ (exists r, rouge (RS := RougeScoreRef.pkg)
                  [lit "a b."; lit "c."] [lit "a b."] = Ok r)
  /\ rouge (RS := RougeScoreRef.pkg) [lit "a b."; lit "c."] [] = Raise KeyError.
Proof.
  pose proof (rouge_scores_zipped_pairs RougeScoreRef.pkg
                [lit "a b."; lit "c."] [lit "a b."]) as [L [_ [_ [N _]]]].
  pose proof (rouge_scores_zipped_pairs RougeScoreRef.pkg
                [lit "a b."; lit "c."] []) as [_ [_ [_ [_ K]]]].
  split; [exact L|]. split.
  - apply N; discriminate.
  - apply K. right. reflexivity.
Defined.

(** C4, counterexample. For the reference "a b . c d." and the completion
    "c d . a b" the value reported as [rougeL] is 100 (each
    sentence of the reference is matched in full by a sentence of the
    completion), whereas the LCS of the two whole token sequences has length
    2 of 4 and gives 50. *)
Lemma rougeL_is_not_whole_summary_lcs :
  let ref := lit "a b . c d." in
  let completion := lit "c d . a b" in
  let whole :=
    Qred (fmeasure (RougeScoreRef._score_lcs
                      (RougeScoreRef.tokenize (_prepare_summary ref))
                      (RougeScoreRef.tokenize (_prepare_summary completion)))
          * 100)%Q in
  exists report,
    process_results (RS := RougeScoreRef.pkg) (mkDoc [] ref) [completion]
      = Ok report
    /\ dict_get report rougeL = Some 100%Q
    /\ whole = 50%Q
    /\ dict_get report rougeL <> Some whole.
Proof.
  eexists. split; [vm_compute; reflexivity|].
  split; [reflexivity|]. split; [reflexivity|].
  vm_compute. discriminate.
Qed.

(** C4 (amended). The value reported as [rougeL] is the scorer's [rougeLsum]
    for the reference and the stripped completion after [_prepare_summary]:
    with the scoring package's algorithms, the summary-level LCS over the
    newline-separated sentences of the two texts (union LCS per reference
    sentence), not the LCS of the whole token sequences. *)
Theorem rougeL_is_summary_level_lcs :
  (forall (RS : RougeScore) (doc : Doc) (r0 : str) (rest : list str),
   exists report,
     process_results doc (r0 :: rest) = Ok report
     /\ dict_get report rougeL
        = Some (times100 (fmeasure (mid (bootstrap rougeLsum
                  [score_type rougeLsum (_prepare_summary (highlights doc))
                                        (_prepare_summary (strip r0))])))))
  /\ (forall (doc : Doc) (r0 : str) (rest : list str),
      exists report,
        process_results (RS := RougeScoreRef.pkg) doc (r0 :: rest) = Ok report
        /\ dict_get report rougeL
           = Some (Qred (fmeasure
                (RougeScoreRef._summary_level_lcs
                   (List.map RougeScoreRef.tokenize
                      (RougeScoreRef.get_sents
                         (_prepare_summary (highlights doc))))
                   (List.map RougeScoreRef.tokenize
                      (RougeScoreRef.get_sents
                         (_prepare_summary (strip r0))))) * 100)%Q)).
Proof.
  split.
  - intros RS doc r0 rest.
    destruct (process_results_cons doc r0 rest) as [_ P].
    eexists. split; [exact P|]. reflexivity.
  - intros doc r0 rest.
    destruct (process_results_cons (RS := RougeScoreRef.pkg) doc r0 rest)
      as [_ P].
    eexists. split; [exact P|]. reflexivity.
Qed.

(** ** Pruning *)

Lemma get_prune_text_ok (sample : Doc) :
  _get_prune_text sample = Ok (strip (article sample) ++ prompt_suffix).
Proof. reflexivity. Qed.

Section PruneFacts.
Variables (self : Variant) (m : Z) (tokenizers : list Tokenizer).
Hypothesis budget : PRUNE_MAX_TOKENS self = Some m.

Lemma filter_loop_eq (toks : list Tokenizer) (text : str) (st : FilterState) :
  filter_loop self toks text st
  = (Ok (within_budget m toks text),
     mkFilterState (<[text := within_budget m toks text]> (cache st))
                   (calls st ++ List.map (call_entry text) (consulted m toks text))).
Proof using budget.
  revert st. induction toks as [|tk toks IH]; intros st.
  - simpl. unfold cache_set. by rewrite app_nil_r.
  - cbn [filter_loop within_budget consulted forallb]. rewrite budget.
    simpl int_gt. rewrite Z.leb_antisym.
    destruct (m <? Z.of_nat (length (input_ids tk text)))%Z eqn:E.
    + reflexivity.
    + rewrite IH. cbn [negb andb]. unfold record_call. cbn [cache calls].
      cbn [List.map]. by rewrite <- app_assoc.
Qed.

Lemma within_budget_iff (toks : list Tokenizer) (text : str) :
  within_budget m toks text = true
  <-> forall tk, In tk toks -> (Z.of_nat (length (input_ids tk text)) <= m)%Z.
Proof.
  unfold within_budget. rewrite forallb_forall.
  split; intros H tk I; specialize (H tk I).
  - by apply Z.leb_le.
  - by apply Z.leb_le.
Qed.

Lemma consulted_shape (toks : list Tokenizer) (text : str) :
  (within_budget m toks text = true /\ consulted m toks text = toks)
  \/ (within_budget m toks text = false /\
      exists pre tk post,
        toks = pre ++ tk :: post
        /\ (forall t, In t pre -> (Z.of_nat (length (input_ids t text)) <= m)%Z)
        /\ (m < Z.of_nat (length (input_ids tk text)))%Z
        /\ consulted m toks text = pre ++ [tk]).
Proof.
  induction toks as [|tk toks IH]; [by left|].
  cbn [within_budget consulted forallb]. rewrite Z.leb_antisym.
  destruct (m <? Z.of_nat (length (input_ids tk text)))%Z eqn:E.
  - right. split; [done|]. exists [], tk, toks.
    apply Z.ltb_lt in E. by repeat split.
  - apply Z.ltb_ge in E. cbn [negb andb].
    destruct IH as [[W C]|[W (pre & tk' & post & -> & P & X & C)]].
    + left. fold (within_budget m toks text). by rewrite W, C.
    + right. fold (within_budget m (pre ++ tk' :: post) text).
      split; [done|]. exists (tk :: pre), tk', post.
      repeat split; [|done|by rewrite C].
      intros t [<-|I]; [lia|by apply P].
Qed.

Lemma filter_hit (sample : Doc) (text : str) (b : bool) (st : FilterState) :
  _get_prune_text sample = Ok text -> cache st !! text = Some b ->
  _filter self tokenizers sample st = (Ok b, st).
Proof. intros T H. unfold _filter. by rewrite T, H. Qed.

Lemma filter_miss (sample : Doc) (text : str) (st : FilterState) :
  _get_prune_text sample = Ok text -> cache st !! text = None ->
  _filter self tokenizers sample st
  = (Ok (within_budget m tokenizers text),
     mkFilterState (<[text := within_budget m tokenizers text]> (cache st))
                   (calls st ++ List.map (call_entry text)
                                         (consulted m tokenizers text))).
Proof using budget.
  intros T H. unfold _filter. rewrite T, H. apply filter_loop_eq.
Qed.

Lemma filter_uncached (sample : Doc) :
  fst (_filter self tokenizers sample init_state)
  = Ok (within_budget m tokenizers (strip (article sample) ++ prompt_suffix)).
Proof using budget.
  by rewrite (filter_miss sample _ init_state (get_prune_text_ok sample)).
Qed.

Lemma cache_sound_init : cache_sound m tokenizers init_state.
Proof. intros text b H. simpl in H. by rewrite lookup_empty in H. Qed.

(** One call of [_filter] from a sound cache: the answer is the uncached
    one, the cache stays sound, keeps its entries and holds the text
    afterwards. *)
Lemma filter_step (sample : Doc) (st : FilterState) :
  cache_sound m tokenizers st ->
  let text := strip (article sample) ++ prompt_suffix in
  let r := _filter self tokenizers sample st in
  fst r = Ok (within_budget m tokenizers text)
  /\ cache_sound m tokenizers (snd r)
  /\ cache (snd r) !! text = Some (within_budget m tokenizers text)
  /\ (forall t b, cache st !! t = Some b -> cache (snd r) !! t = Some b).
Proof using budget.
  intros S text r. subst r.
  pose proof (get_prune_text_ok sample) as T. fold text in T. clearbody text.
  destruct (cache st !! text) as [b|] eqn:H.
  - rewrite (filter_hit sample text b st T H).
    simpl. pose proof (S _ _ H) as ->. repeat split; auto.
  - rewrite (filter_miss sample text st T H).
    simpl. split; [done|]. split; [|split].
    + intros t b. simpl. destruct (decide (text = t)) as [<-|N].
      * rewrite lookup_insert_eq. by intros [= <-].
      * rewrite lookup_insert_ne by done. apply S.
    + apply lookup_insert_eq.
    + intros t b Ht. rewrite lookup_insert_ne; [done|]. intros <-. by rewrite H in Ht.
Qed.

Lemma filter_each_sound (samples : list Doc) (st : FilterState) :
  cache_sound m tokenizers st ->
  let r := filter_each self tokenizers samples st in
  fst r = List.map (fun sample =>
                      Ok (within_budget m tokenizers
                            (strip (article sample) ++ prompt_suffix))) samples
  /\ cache_sound m tokenizers (snd r)
  /\ (forall t b, cache st !! t = Some b -> cache (snd r) !! t = Some b).
Proof using budget.
  revert st. induction samples as [|sample rest IH]; intros st S; [done|].
  cbn [filter_each List.map].
  destruct (filter_step sample st S) as (R & S1 & _ & M1).
  destruct (_filter self tokenizers sample st) as [r st1]. simpl in R, S1, M1.
  destruct (IH st1 S1) as (R2 & S2 & M2).
  destruct (filter_each self tokenizers rest st1) as [rs st2].
  simpl in *. subst. split; [done|]. split; [done|]. auto.
Qed.

Lemma filter_each_app (l1 l2 : list Doc) (st : FilterState) :
  filter_each self tokenizers (l1 ++ l2) st
  = let r1 := filter_each self tokenizers l1 st in
    let r2 := filter_each self tokenizers l2 (snd r1) in
    (fst r1 ++ fst r2, snd r2).
Proof.
  revert st. induction l1 as [|s l1 IH]; intros st.
  - simpl. by destruct (filter_each self tokenizers l2 st).
  - cbn [app filter_each].
    destruct (_filter self tokenizers s st) as [r st1]. rewrite IH.
    destruct (filter_each self tokenizers l1 st1) as [rs st2]. simpl.
    by destruct (filter_each self tokenizers l2 st2).
Qed.

(** After a sample has been filtered, its text stays in the cache. *)
Lemma filter_each_cached (pre mid : list Doc) (s1 : Doc) :
  let text := strip (article s1) ++ prompt_suffix in
  let st := snd (filter_each self tokenizers (pre ++ s1 :: mid) init_state) in
  cache_sound m tokenizers st
  /\ cache st !! text = Some (within_budget m tokenizers text).
Proof using budget.
  intros text st. subst st. rewrite filter_each_app. cbn [snd].
  destruct (filter_each_sound pre init_state cache_sound_init) as (_ & S0 & _).
  set (st0 := snd (filter_each self tokenizers pre init_state)) in *.
  cbn [filter_each].
  destruct (filter_step s1 st0 S0) as (_ & S1 & C1 & _).
  destruct (_filter self tokenizers s1 st0) as [r st1]. simpl in S1, C1.
  destruct (filter_each_sound mid st1 S1) as (_ & S2 & M2).
  destruct (filter_each self tokenizers mid st1) as [rs st2]. simpl in *.
  split; [done|]. by apply M2.
Qed.
End PruneFacts.

(** C5. With a token budget set, [_filter] applied to any sequence of
    samples, starting from the empty cache, answers for each sample what
    [_filter] answers on an empty cache, which is the check recomputed for
    that sample alone: at most the budget under every tokenizer. When a sample renders to the same
    prompt text as an earlier one, the call for it returns the earlier
    answer and leaves the list of tokenizer invocations (and the cache) as
    they were: no tokenizer is invoked for it. *)
Theorem memoized_filter_agrees_with_uncached :
  forall (self : Variant) (m : Z) (tokenizers : list Tokenizer),
    PRUNE_MAX_TOKENS self = Some m ->
    (forall samples : list Doc,
        fst (filter_each self tokenizers samples init_state)
        = List.map (fun sample =>
                      fst (_filter self tokenizers sample init_state)) samples
        /\ fst (filter_each self tokenizers samples init_state)
          = List.map (fun sample =>
                        Ok (within_budget m tokenizers
                              (strip (article sample) ++ prompt_suffix)))
                     samples)
    /\ (forall (pre mid : list Doc) (s1 s2 : Doc),
          _get_prune_text s1 = _get_prune_text s2 ->
          let before :=
            snd (filter_each self tokenizers (pre ++ s1 :: mid) init_state) in
          let second := _filter self tokenizers s2 before in
          fst second = fst (_filter self tokenizers s1 init_state)
          /\ calls (snd second) = calls before
          /\ cache (snd second) = cache before).
Proof.
  intros self m tokenizers budget. split.
  - intros samples.
    destruct (filter_each_sound self m tokenizers budget samples init_state
                (cache_sound_init m tokenizers)) as (R & _ & _).
    rewrite R. split; [|done]. apply map_ext. intros sample.
    symmetry. by apply filter_uncached.
  - intros pre mid s1 s2 T before second.
    destruct (filter_each_cached self m tokenizers budget pre mid s1) as [_ C].
    fold before in C. subst second.
    rewrite (filter_hit self tokenizers s2 _ _ before
               (eq_trans (eq_sym T) (get_prune_text_ok s1)) C).
    rewrite (filter_uncached self m tokenizers budget s1). done.
Qed.

Lemma memoized_filter_agrees_with_uncached_witness :
  let before :=
    snd (filter_each Examples.variant_t Examples.tokenizers_t
           ([] ++ Examples.doc_ab :: [Examples.doc_abc]) init_state) in
  let second :=
    _filter Examples.variant_t Examples.tokenizers_t Examples.doc_ab' before in
  fst second
    = fst (_filter Examples.variant_t Examples.tokenizers_t Examples.doc_ab
             init_state)
  /\ calls (snd second) = calls before
  /\ cache (snd second) = cache before.
Proof.
  apply (memoized_filter_agrees_with_uncached
           Examples.variant_t Examples.len_ab Examples.tokenizers_t).
  - reflexivity.
  - vm_compute. reflexivity.
Defined.

(** C6. With a token budget [m] set, at any point of a filtering pass
    [_filter] keeps a sample exactly when every configured tokenizer gives
    at most [m] ids for its prompt text: [m] ids under every tokenizer keep
    it, [m + 1] ids under some tokenizer reject it. When the text is not in
    the cache the tokenizers are invoked in list order: all of them if the
    sample is kept, otherwise those up to and including the first one that
    exceeds the budget, and none after it. *)
Theorem filter_keeps_within_budget :
  forall (self : Variant) (m : Z) (tokenizers : list Tokenizer),
    PRUNE_MAX_TOKENS self = Some m ->
    forall (samples : list Doc) (sample : Doc),
    exists (text : str) (keep : bool),
      _get_prune_text sample = Ok text
      /\ fst (_filter self tokenizers sample
                (snd (filter_each self tokenizers samples init_state)))
         = Ok keep
      /\ (keep = true
          <-> forall tk, In tk tokenizers ->
                (Z.of_nat (length (input_ids tk text)) <= m)%Z)
      /\ ((forall tk, In tk tokenizers ->
             Z.of_nat (length (input_ids tk text)) = m) -> keep = true)
      /\ ((exists tk, In tk tokenizers /\
             Z.of_nat (length (input_ids tk text)) = (m + 1)%Z) -> keep = false)
      /\ (forall st : FilterState,
            cache st !! text = None ->
            exists used : list Tokenizer,
              calls (snd (_filter self tokenizers sample st))
              = calls st ++ List.map (fun tk => (name_or_path tk, text)) used
              /\ ((keep = true /\ used = tokenizers)
                  \/ (keep = false /\
                      exists pre tk post,
                        tokenizers = pre ++ tk :: post
                        /\ (forall t, In t pre ->
                              (Z.of_nat (length (input_ids t text)) <= m)%Z)
                        /\ (m < Z.of_nat (length (input_ids tk text)))%Z
                        /\ used = pre ++ [tk]))).
Proof.
  intros self m tokenizers budget samples sample.
  set (text := strip (article sample) ++ prompt_suffix).
  exists text, (within_budget m tokenizers text).
  pose proof (within_budget_iff m tokenizers text) as W.
  split; [reflexivity|]. split; [|split; [|split; [|split]]].
  - destruct (filter_each_sound self m tokenizers budget samples init_state
                (cache_sound_init m tokenizers)) as (_ & S & _).
    by destruct (filter_step self m tokenizers budget sample _ S) as (R & _).
  - exact W.
  - intros H. apply W. intros tk I. rewrite (H tk I). lia.
  - intros (tk & I & E). apply not_true_is_false. intros K.
    rewrite W in K. specialize (K tk I). lia.
  - intros st H. exists (consulted m tokenizers text).
    rewrite (filter_miss self m tokenizers budget sample text st
               (get_prune_text_ok sample) H).
    split; [reflexivity|]. apply consulted_shape.
Qed.

Lemma filter_keeps_within_budget_witness :
  fst (_filter Examples.variant_t Examples.tokenizers_t Examples.doc_ab
         (snd (filter_each Examples.variant_t Examples.tokenizers_t
                 [Examples.doc_abc] init_state))) = Ok true
  /\ fst (_filter Examples.variant_t Examples.tokenizers_t Examples.doc_abc
            init_state) = Ok false.
Proof.
  split.
  - destruct (filter_keeps_within_budget
                Examples.variant_t Examples.len_ab Examples.tokenizers_t
                eq_refl [Examples.doc_abc] Examples.doc_ab)
      as (text & keep & T & R & _ & K & _).
    injection T as <-. rewrite R. f_equal. apply K.
    intros tk [<-|[]]. vm_compute. reflexivity.
  - destruct (filter_keeps_within_budget
                Examples.variant_t Examples.len_ab Examples.tokenizers_t
                eq_refl [] Examples.doc_abc)
      as (text & keep & T & R & _ & _ & K & _).
    injection T as <-. cbn [filter_each snd] in R. rewrite R. f_equal. apply K.
    eexists. split; [left; reflexivity|]. vm_compute. reflexivity.
Defined.

Lemma download_base_task (pretrained : str -> str -> list Z) (loaded : Dataset) :
  download pretrained CNN_DailyMail loaded = (Ok loaded, init_state).
Proof. reflexivity. Qed.

Lemma download_short_task (pretrained : str -> str -> list Z)
    (cores : option Z) (loaded : Dataset) :
  download pretrained (CNN_DailyMail_Short cores) loaded
  = dataset_filter
      (_filter (CNN_DailyMail_Short cores)
               [from_pretrained pretrained (lit "PY007/TinyLlama-1.1B-Chat-v0.3")])
      loaded init_state.
Proof. reflexivity. Qed.

(** C1. [download] tests [PRUNE_TOKENIZERS] twice and [PRUNE_MAX_TOKENS]
    never: a variant that names tokenizers and leaves the budget [None] is
    pruned all the same. With one tokenizer and one document to filter, the
    tokenizer is invoked and the comparison of the length with [None] raises
    [TypeError]. A variant without tokenizers is not pruned. *)
Theorem download_prunes_without_budget :
  forall (pretrained : str -> str -> list Z) (name : str) (names : list str)
         (np : option Z) (d : Doc) (rest va te : list Doc),
    let self := mkVariant (Some (name :: names)) None np in
    let loaded := mkDataset (d :: rest) va te in
    download pretrained self loaded = prune pretrained self loaded
    /\ fst (download pretrained self loaded) = Raise TypeError
    /\ calls (snd (download pretrained self loaded))
       = [(name, strip (article d) ++ prompt_suffix)]
    /\ (forall budget : option Z,
          download pretrained (mkVariant None budget np) loaded
          = (Ok loaded, init_state)).
Proof.
  intros pretrained name names np d rest va te self loaded.
  split; [reflexivity|]. split; [reflexivity|]. split; reflexivity.
Qed.

(** * Further properties *)

(** ** White space around the fields *)

Lemma lstrip_blank_app (w s : str) :
  forallb isspace w = true -> lstrip (w ++ s) = lstrip s.
Proof.
  induction w as [|c w IH]; [done|]. simpl. intros H.
  apply andb_true_iff in H as [-> H]. by apply IH.
Qed.

Lemma lstrip_app_blank (s w : str) :
  forallb isspace w = true ->
  lstrip (s ++ w) = [] /\ lstrip s = [] \/ lstrip (s ++ w) = lstrip s ++ w.
Proof.
  intros H. induction s as [|c s IH]; simpl.
  - left. split; [|done]. rewrite <- (app_nil_r w). rewrite lstrip_blank_app; done.
  - destruct (isspace c); [exact IH|]. by right.
Qed.

Lemma rstrip_app_blank (s w : str) :
  forallb isspace w = true -> rstrip (s ++ w) = rstrip s.
Proof.
  intros H. unfold rstrip. rewrite rev_app_distr. rewrite lstrip_blank_app; [done|].
  rewrite forallb_forall in *. intros x Hx. apply H. by apply in_rev.
Qed.

Lemma strip_pad (w1 s w2 : str) :
  forallb isspace w1 = true -> forallb isspace w2 = true ->
  strip (w1 ++ s ++ w2) = strip s.
Proof.
  intros H1 H2. unfold strip. rewrite lstrip_blank_app by done.
  destruct (lstrip_app_blank s w2 H2) as [[-> ->] | ->]; [done|].
  by apply rstrip_app_blank.
Qed.

(** X4. White space around [article] and [highlights] is immaterial: a
    document padded with white space at either end of either field is
    normalised like the document without the padding, and renders the same
    text for pruning. *)
Theorem normalize_doc_ignores_padding :
  forall (a h w1 w2 w3 w4 : str),
    forallb isspace w1 = true -> forallb isspace w2 = true ->
    forallb isspace w3 = true -> forallb isspace w4 = true ->
    normalize_doc (mkDoc (w1 ++ a ++ w2) (w3 ++ h ++ w4))
    = normalize_doc (mkDoc a h)
    /\ _get_prune_text (mkDoc (w1 ++ a ++ w2) (w3 ++ h ++ w4))
       = _get_prune_text (mkDoc a h).
Proof.
  intros a h w1 w2 w3 w4 H1 H2 H3 H4.
  unfold normalize_doc, _get_prune_text, _process_doc, set_highlights,
    set_article. cbn [article highlights].
  rewrite (strip_pad w3 h w4 H3 H4). split.
  - destruct (getitem_last (strip h)) as [c|e]; [|done].
    cbn [mbind result_bind].
    destruct (negb (c =? DOT)); cbn [article highlights];
      by rewrite (strip_pad w1 a w2 H1 H2).
  - cbn [getitem_0 mbind result_bind doc_to_text article].
    by rewrite (strip_pad w1 a w2 H1 H2).
Qed.

Lemma normalize_doc_ignores_padding_witness :
  normalize_doc (mkDoc (lit "  " ++ lit "a" ++ [NL]) ([NL] ++ lit "b" ++ lit " "))
  = normalize_doc (mkDoc (lit "a") (lit "b")).
Proof.
  apply (normalize_doc_ignores_padding (lit "a") (lit "b")
           (lit "  ") [NL] [NL] (lit " ")); reflexivity.
Defined.

(** ** The iterators over a whole split *)

Lemma normalize_doc_cases (doc : Doc) :
  (strip (highlights doc) = [] /\ normalize_doc doc = Raise IndexError)
  \/ (strip (highlights doc) <> [] /\
      normalize_doc doc =
        Ok [mkDoc (strip (article doc))
                  (strip (highlights doc)
                   ++ (if decide (last (strip (highlights doc)) = Some DOT)
                       then [] else [DOT]))]).
Proof.
  destruct (last (strip (highlights doc))) as [c|] eqn:L.
  - right. split; [intros E; by rewrite E in L|].
    destruct (decide (Some c = Some DOT)) as [[= ->]|N].
    + rewrite app_nil_r. by apply normalize_doc_keep.
    + eapply normalize_doc_append; [exact L|]. intros ->. by apply N.
  - left. apply last_None in L. split; [done|]. by apply normalize_doc_empty.
Qed.

(** A yielded document is normalised to itself. *)
Lemma normalize_doc_fixed (doc : Doc) (ys : list Doc) :
  normalize_doc doc = Ok ys ->
  exists d, ys = [d] /\ normalize_doc d = Ok [d].
Proof.
  intros H. destruct (normalize_doc_cases doc) as [[_ E]|[NE E]];
    rewrite E in H; [done|]. injection H as <-.
  eexists. split; [reflexivity|].
  set (h := strip (highlights doc) ++ _).
  assert (T : trimmed h /\ last h = Some DOT).
  { subst h. destruct (decide _) as [L|L].
    - rewrite app_nil_r. split; [apply strip_trimmed|done].
    - split; [|apply last_snoc].
      apply trimmed_snoc_DOT; [apply strip_trimmed|done]. }
  destruct T as [T L].
  pose proof (normalize_doc_keep (mkDoc (strip (article doc)) h)) as K.
  cbn [article highlights] in K. rewrite (trimmed_strip h T) in K.
  rewrite strip_idem in K. by apply K.
Qed.

Lemma docs_of_good (split : list Doc) :
  Forall (fun doc => strip (highlights doc) <> []) split ->
  docs_of split
  = (List.map
       (fun doc =>
          mkDoc (strip (article doc))
                (strip (highlights doc)
                 ++ (if decide (last (strip (highlights doc)) = Some DOT)
                     then [] else [DOT])))
       split, None).
Proof.
  induction 1 as [|doc rest NE _ IH]; [done|].
  cbn [docs_of List.map].
  destruct (normalize_doc_cases doc) as [[E _]|[_ ->]]; [done|].
  by rewrite IH.
Qed.

Lemma docs_of_app (l1 l2 : list Doc) :
  docs_of (l1 ++ l2)
  = match docs_of l1 with
    | (ys, None) => let '(zs, stop) := docs_of l2 in (ys ++ zs, stop)
    | (ys, Some e) => (ys, Some e)
    end.
Proof.
  induction l1 as [|doc l1 IH]; cbn [app docs_of].
  - by destruct (docs_of l2).
  - destruct (normalize_doc doc) as [ys|e]; [|done]. rewrite IH.
    destruct (docs_of l1) as [ys1 [e|]]; [done|].
    destruct (docs_of l2) as [zs stop]. by rewrite app_assoc.
Qed.

(** X1. Over a split in which no [highlights] is blank, each iterator runs to
    its end and yields one document per source document, in order: the
    article stripped, and the stripped [highlights] with "." appended exactly
    when it does not already end in ".". *)
Theorem iterators_yield_one_per_document :
  forall dataset : Dataset,
    Forall (fun doc => strip (highlights doc) <> []) (rows dataset) ->
    let normal doc :=
      mkDoc (strip (article doc))
            (strip (highlights doc)
             ++ (if decide (last (strip (highlights doc)) = Some DOT)
                 then [] else [DOT])) in
    training_docs dataset = (List.map normal (train dataset), None)
    /\ validation_docs dataset = (List.map normal (validation dataset), None)
    /\ test_docs dataset = (List.map normal (test dataset), None).
Proof.
  intros dataset H normal. unfold rows in H.
  apply Forall_app in H as [H1 H]. apply Forall_app in H as [H2 H3].
  unfold training_docs, validation_docs, test_docs.
  by rewrite !docs_of_good.
Qed.

Lemma iterators_yield_one_per_document_witness :
  training_docs (mkDataset [Examples.doc_ab; Examples.doc_abc] [] [])
  = ([mkDoc (lit "a") (lit "a b."); mkDoc (lit "ab") (lit "c.")], None).
Proof.
  apply (iterators_yield_one_per_document
           (mkDataset [Examples.doc_ab; Examples.doc_abc] [] [])).
  repeat constructor; vm_compute; discriminate.
Defined.

(** X2. An iterator stops at the first document whose [highlights] is blank:
    the documents before it are yielded, the [IndexError] ends the
    iteration, and nothing after it is yielded, whatever follows. *)
Theorem iterators_stop_at_first_blank :
  forall (pre post va te : list Doc) (bad : Doc),
    Forall (fun doc => strip (highlights doc) <> []) pre ->
    strip (highlights bad) = [] ->
    training_docs (mkDataset (pre ++ bad :: post) va te)
    = (fst (training_docs (mkDataset pre va te)), Some IndexError)
    /\ length (fst (training_docs (mkDataset (pre ++ bad :: post) va te)))
       = length pre.
Proof.
  intros pre post va te bad G B. unfold training_docs. cbn [train].
  rewrite docs_of_app, (docs_of_good pre G). cbn [docs_of fst].
  rewrite (normalize_doc_empty bad B), app_nil_r.
  split; [done|]. cbn [fst]. apply length_map.
Qed.

Lemma iterators_stop_at_first_blank_witness :
  training_docs (mkDataset ([Examples.doc_ab] ++ mkDoc (lit "x") (lit " ")
                            :: [Examples.doc_abc]) [] [])
  = (fst (training_docs (mkDataset [Examples.doc_ab] [] [])), Some IndexError).
Proof.
  apply (iterators_stop_at_first_blank
           [Examples.doc_ab] [Examples.doc_abc] [] [] (mkDoc (lit "x") (lit " "))).
  - repeat constructor; vm_compute; discriminate.
  - vm_compute. reflexivity.
Defined.

Lemma docs_of_fixed (split : list Doc) :
  docs_of (fst (docs_of split)) = (fst (docs_of split), None).
Proof.
  induction split as [|doc rest IH]; [done|]. cbn [docs_of].
  destruct (normalize_doc doc) as [ys|e] eqn:E; [|done].
  destruct (normalize_doc_fixed doc ys E) as [d [-> F]].
  destruct (docs_of rest) as [zs stop]. cbn [fst app] in *.
  cbn [docs_of]. by rewrite F, IH.
Qed.

(** X3. Normalisation is idempotent: an iterator run over the documents an
    iterator has yielded yields the same documents again, and never
    raises. *)
Theorem iterators_idempotent :
  forall (dataset : Dataset) (va te : list Doc),
    training_docs (mkDataset (fst (training_docs dataset)) va te)
    = (fst (training_docs dataset), None)
    /\ validation_docs (mkDataset va (fst (validation_docs dataset)) te)
       = (fst (validation_docs dataset), None)
    /\ test_docs (mkDataset va te (fst (test_docs dataset)))
       = (fst (test_docs dataset), None).
Proof.
  intros dataset va te. unfold training_docs, validation_docs, test_docs.
  cbn [train validation test]. by rewrite !docs_of_fixed.
Qed.

(** ** The text measured by the pruning filter *)

(** X5. [_get_prune_text] never raises, not even on a sample with blank
    [highlights], and for a sample the iterators accept it is the prompt
    [doc_to_text] renders for the document they yield: the filter measures
    the prompt that is evaluated later. *)
Theorem prune_text_is_rendered_prompt :
  (forall sample : Doc, exists text, _get_prune_text sample = Ok text)
  /\ (forall (sample : Doc) (ys : list Doc),
        normalize_doc sample = Ok ys ->
        exists d, ys = [d]
                  /\ _get_prune_text sample = Ok (doc_to_text d)
                  /\ _get_prune_text d = Ok (doc_to_text d)).
Proof.
  split; [intros sample; by eexists|].
  intros sample ys H.
  destruct (normalize_doc_cases sample) as [[_ E]|[NE E]];
    rewrite E in H; [done|]. injection H as <-.
  eexists. split; [reflexivity|]. split; [reflexivity|].
  rewrite get_prune_text_ok. unfold doc_to_text. cbn [article].
  by rewrite strip_idem.
Qed.

Lemma prune_text_is_rendered_prompt_witness :
  exists d, [mkDoc (lit "a") (lit "a b.")] = [d]
            /\ _get_prune_text Examples.doc_ab = Ok (doc_to_text d)
            /\ _get_prune_text d = Ok (doc_to_text d).
Proof.
  destruct prune_text_is_rendered_prompt as [_ H].
  apply (H Examples.doc_ab). vm_compute. reflexivity.
Defined.

(** X6. The prompt determines the article: two documents render the same
    [doc_to_text] exactly when their articles are equal, and two samples get
    the same pruning text (hence share a cache entry) exactly when their
    stripped articles are equal, whatever their [highlights]. *)
Theorem prompts_collide_on_equal_articles :
  forall d1 d2 : Doc,
    (doc_to_text d1 = doc_to_text d2 <-> article d1 = article d2)
    /\ (_get_prune_text d1 = _get_prune_text d2
        <-> strip (article d1) = strip (article d2)).
Proof.
  intros d1 d2. split.
  - unfold doc_to_text. split; [apply app_inv_tail|by intros ->].
  - rewrite !get_prune_text_ok. split.
    + intros [= H]. by apply app_inv_tail in H.
    + by intros ->.
Qed.

(** ** More on the preparation of summaries *)

Lemma prepare_summary_match (rest : str) :
  _prepare_summary (lit " . " ++ rest) = [DOT; NL] ++ _prepare_summary rest.
Proof.
  unfold _prepare_summary. change (lit " . ") with (SPACE :: [DOT; SPACE]).
  apply str_replace_match, strip_prefix_app.
Qed.

Lemma prepare_summary_copy (c : char) (r : str) :
  strip_prefix (lit " . ") (c :: r) = None ->
  _prepare_summary (c :: r) = c :: _prepare_summary r.
Proof.
  unfold _prepare_summary. change (lit " . ") with (SPACE :: [DOT; SPACE]).
  apply str_replace_copy.
Qed.

(** Induction along the scan of [_prepare_summary]. *)
Lemma prepare_summary_ind (Q : str -> Prop) :
  Q [] ->
  (forall rest, Q rest -> Q (lit " . " ++ rest)) ->
  (forall c r, strip_prefix (lit " . ") (c :: r) = None -> Q r -> Q (c :: r)) ->
  forall s, Q s.
Proof.
  intros Q0 Qm Qc s.
  assert (H : forall n s, (length s <= n)%nat -> Q s); [|by apply (H (length s))].
  clear s. induction n as [|n IH]; intros s L.
  - destruct s; [done|]. simpl in L. lia.
  - destruct s as [|c r]; [done|].
    destruct (strip_prefix (lit " . ") (c :: r)) as [rest|] eqn:E.
    + apply strip_prefix_Some in E. rewrite E. apply Qm, IH.
      apply (f_equal length) in E. rewrite length_app in E.
      simpl in E, L. lia.
    + apply Qc; [done|]. apply IH. simpl in L. lia.
Qed.

(** X8. [_prepare_summary] changes white space only: the characters that are
    not white space are the same, in the same order, before and after, and
    the result is never longer than the input. *)
Theorem prepare_summary_changes_blanks_only :
  forall s : str,
    non_blank (_prepare_summary s) = non_blank s
    /\ (length (_prepare_summary s) <= length s)%nat.
Proof.
  apply prepare_summary_ind.
  - done.
  - intros rest [IH L]. rewrite prepare_summary_match. split.
    + change (non_blank ([DOT; NL] ++ _prepare_summary rest))
        with (DOT :: non_blank (_prepare_summary rest)).
      change (non_blank (lit " . " ++ rest)) with (DOT :: non_blank rest).
      by rewrite IH.
    + rewrite !length_app. simpl. lia.
  - intros c r E [IH L]. rewrite (prepare_summary_copy c r E). split.
    + unfold non_blank in *. simpl. by rewrite IH.
    + simpl. lia.
Qed.

(** If the output starts with "." and a space, so does the input. *)
Lemma prepare_summary_head (s t : str) :
  _prepare_summary s = DOT :: SPACE :: t -> exists t', s = DOT :: SPACE :: t'.
Proof.
  destruct s as [|c r]; [done|].
  destruct (strip_prefix (lit " . ") (c :: r)) as [rest|] eqn:E.
  { apply strip_prefix_Some in E. rewrite E, prepare_summary_match.
    intros [= H]. }
  rewrite (prepare_summary_copy c r E). intros [= -> H].
  destruct r as [|c' r']; [done|].
  destruct (strip_prefix (lit " . ") (c' :: r')) as [rest|] eqn:E'.
  { apply strip_prefix_Some in E'. rewrite E', prepare_summary_match in H.
    by injection H. }
  rewrite (prepare_summary_copy c' r' E') in H. injection H as -> _.
  by eexists.
Qed.

Lemma prepare_summary_no_occurrence (s : str) :
  occurs (lit " . ") (_prepare_summary s) = false.
Proof.
  revert s. apply prepare_summary_ind.
  - reflexivity.
  - intros rest IH. rewrite prepare_summary_match.
    rewrite occurs_unfold. cbn [app strip_prefix lit].
    change (strip_prefix (lit " . ") ([DOT; NL] ++ _prepare_summary rest))
      with (@None (list N)).
    rewrite occurs_unfold.
    change (strip_prefix (lit " . ") (NL :: _prepare_summary rest))
      with (@None (list N)).
    exact IH.
  - intros c r E IH. rewrite (prepare_summary_copy c r E).
    rewrite occurs_unfold.
    destruct (strip_prefix (lit " . ") (c :: _prepare_summary r))
      as [rest|] eqn:E'; [|exact IH].
    exfalso. apply strip_prefix_Some in E'.
    change (lit " . " ++ rest) with (SPACE :: DOT :: SPACE :: rest) in E'.
    injection E' as -> E'.
    apply prepare_summary_head in E' as [t' ->].
    change (SPACE :: DOT :: SPACE :: t') with (lit " . " ++ t') in E.
    by rewrite strip_prefix_app in E.
Qed.

Lemma prepare_summary_twice (s : str) :
  _prepare_summary (_prepare_summary s) = _prepare_summary s.
Proof.
  pose proof (occurs_false _ _ (prepare_summary_no_occurrence s)) as H.
  unfold _prepare_summary at 1.
  change (lit " . ") with (SPACE :: [DOT; SPACE]) in *.
  by apply str_replace_absent.
Qed.

Lemma rouge_scores_prepared {RS : RougeScore} (refs preds : list str) :
  rouge_scores (List.map _prepare_summary refs) (List.map _prepare_summary preds)
  = rouge_scores refs preds.
Proof.
  revert preds. induction refs as [|ref refs IH]; intros [|pred preds]; try done.
  cbn [List.map]. rewrite !rouge_scores_cons, IH.
  by rewrite !prepare_summary_twice.
Qed.

(** X7. [_prepare_summary] is idempotent: its result holds no " . " any
    more, so preparing a prepared summary changes nothing, and [rouge] gives
    the same result on summaries that were prepared beforehand. *)
Theorem prepare_summary_idempotent :
  (forall s : str,
      (forall a b, _prepare_summary s <> a ++ lit " . " ++ b)
      /\ _prepare_summary (_prepare_summary s) = _prepare_summary s)
  /\ (forall (RS : RougeScore) (refs preds : list str),
        rouge (List.map _prepare_summary refs) (List.map _prepare_summary preds)
        = rouge refs preds).
Proof.
  split.
  - intros s. split; [|apply prepare_summary_twice].
    apply occurs_false, prepare_summary_no_occurrence.
  - intros RS refs preds. unfold rouge. by rewrite rouge_scores_prepared.
Qed.

(** ** The reported metrics *)

(** X9. The three dicts of the task agree on the metric names: whenever
    [process_results] returns, its keys are "rouge1", "rouge2" and "rougeL",
    [aggregation] maps each of them to [mean] and [higher_is_better] maps
    each of them to [True], and neither has any other key. *)
Theorem metric_names_agree :
  forall (RS : RougeScore) (mean : list float -> float)
         (doc : Doc) (results : list str) (report : dict rouge_type float),
    process_results doc results = Ok report ->
    keys report = [rouge1; rouge2; rougeL]
    /\ keys (aggregation mean) = keys report
    /\ keys higher_is_better = keys report
    /\ (forall k, In k (keys report) ->
          dict_get (aggregation mean) k = Some mean
          /\ dict_get higher_is_better k = Some true).
Proof.
  intros RS mean doc results report H.
  destruct results as [|r0 rest]; [done|].
  destruct (process_results_cons doc r0 rest) as [_ P].
  rewrite P in H. injection H as <-.
  split; [reflexivity|]. split; [reflexivity|]. split; [reflexivity|].
  intros k [<-|[<-|[<-|[]]]]; split; reflexivity.
Qed.

Lemma metric_names_agree_witness :
  keys (aggregation (F := Q) (fun _ => 0%Q))
  = keys [(rouge1, 100%Q); (rouge2, (200 # 3)%Q); (rougeL, 100%Q)].
Proof.
  apply (metric_names_agree RougeScoreRef.pkg (fun _ => 0%Q)
           (mkDoc [] (lit "a b . c d.")) [lit " c d . a b "]).
  vm_compute. reflexivity.
Defined.

(** X10. [process_results] reads [doc["highlights"]] and the first result
    only, and white space around that first result does not matter: a
    completion padded with white space, followed by any other results, for
    a document with the same [highlights] gives the same scores. *)
Theorem process_results_ignores_padding :
  forall (RS : RougeScore) (doc doc' : Doc) (r0 w1 w2 : str)
         (rest rest' : list str),
    highlights doc = highlights doc' ->
    forallb isspace w1 = true -> forallb isspace w2 = true ->
    process_results doc ((w1 ++ r0 ++ w2) :: rest)
    = process_results doc' (r0 :: rest').
Proof.
  intros RS doc doc' r0 w1 w2 rest rest' H H1 H2.
  unfold process_results. cbn [getitem_0 mbind result_bind].
  by rewrite (strip_pad w1 r0 w2 H1 H2), H.
Qed.

Lemma process_results_ignores_padding_witness :
  process_results (RS := RougeScoreRef.pkg) (mkDoc (lit "x") (lit "a b."))
                  ((lit " " ++ lit "a b" ++ [NL]) :: [lit "z"])
  = process_results (RS := RougeScoreRef.pkg) (mkDoc [] (lit "a b."))
                    (lit "a b" :: []).
Proof.
  apply (process_results_ignores_padding RougeScoreRef.pkg); reflexivity.
Defined.

(** ** Pruning a whole dataset *)

Section CallCount.
Variables (self : Variant) (tokenizers : list Tokenizer).

Lemma filter_loop_calls (toks : list Tokenizer) (text : str) (st : FilterState) :
  (length (calls (snd (filter_loop self toks text st)))
   <= length (calls st) + length toks)%nat.
Proof.
  revert st. induction toks as [|tk toks IH]; intros st; cbn [filter_loop].
  - simpl. lia.
  - destruct (int_gt _ _) as [[|]|e]; cbn [snd cache_set calls record_call].
    + rewrite length_app. simpl. lia.
    + etrans; [apply IH|]. cbn [record_call calls]. rewrite length_app. simpl. lia.
    + rewrite length_app. simpl. lia.
Qed.

Lemma filter_calls (sample : Doc) (st : FilterState) :
  (length (calls (snd (_filter self tokenizers sample st)))
   <= length (calls st) + length tokenizers)%nat.
Proof.
  unfold _filter. rewrite get_prune_text_ok.
  destruct (cache st !! _); [simpl; lia|]. apply filter_loop_calls.
Qed.

Lemma filter_rows_calls (l : list Doc) (st : FilterState) :
  (length (calls (snd (filter_rows (_filter self tokenizers) l st)))
   <= length (calls st) + length l * length tokenizers)%nat.
Proof.
  revert st. induction l as [|row rest IH]; intros st; cbn [filter_rows].
  - simpl. lia.
  - pose proof (filter_calls row st) as H.
    destruct (_filter self tokenizers row st) as [[keep|e] st1];
      cbn [snd] in *; [|simpl; lia].
    pose proof (IH st1) as H1.
    destruct (filter_rows (_filter self tokenizers) rest st1) as [[kept|e] st2];
      cbn [snd] in *; simpl; lia.
Qed.

Lemma dataset_filter_calls (dataset : Dataset) (st : FilterState) :
  (length (calls (snd (dataset_filter (_filter self tokenizers) dataset st)))
   <= length (calls st) + length (rows dataset) * length tokenizers)%nat.
Proof.
  unfold dataset_filter, rows. rewrite !length_app.
  pose proof (filter_rows_calls (train dataset) st) as H1.
  destruct (filter_rows _ (train dataset) st) as [[tr|e] st1];
    cbn [snd] in *; [|lia].
  pose proof (filter_rows_calls (validation dataset) st1) as H2.
  destruct (filter_rows _ (validation dataset) st1) as [[va|e] st2];
    cbn [snd] in *; [|lia].
  pose proof (filter_rows_calls (test dataset) st2) as H3.
  destruct (filter_rows _ (test dataset) st2) as [[te|e] st3];
    cbn [snd] in *; lia.
Qed.
End CallCount.

(** X14. Whatever the variant and the outcome, [download] invokes the
    tokenizers at most once per document and tokenizer: the number of
    invocations is bounded by the number of rows of the dataset times the
    number of configured tokenizers (none when there is no tokenizer
    list). *)
Theorem download_invocations_bounded :
  forall (pretrained : str -> str -> list Z) (self : Variant) (loaded : Dataset),
    (length (calls (snd (download pretrained self loaded)))
     <= length (rows loaded) * length (default [] (PRUNE_TOKENIZERS self)))%nat.
Proof.
  intros pretrained self loaded. unfold download, prune.
  destruct (PRUNE_TOKENIZERS self) as [names|]; cbn; [|lia].
  etrans; [apply dataset_filter_calls|]. rewrite length_map. simpl. lia.
Qed.

Section PruneDataset.
Variables (self : Variant) (m : Z) (tokenizers : list Tokenizer).
Hypothesis budget : PRUNE_MAX_TOKENS self = Some m.

Lemma keeps_eq (sample : Doc) :
  keeps m tokenizers sample
  = within_budget m tokenizers (strip (article sample) ++ prompt_suffix).
Proof. reflexivity. Qed.

Lemma filter_rows_eq (l : list Doc) (st : FilterState) :
  cache_sound m tokenizers st ->
  exists st',
    filter_rows (_filter self tokenizers) l st
    = (Ok (List.filter (keeps m tokenizers) l), st')
    /\ cache_sound m tokenizers st'.
Proof using budget.
  revert st. induction l as [|row rest IH]; intros st S; cbn [filter_rows].
  - by exists st.
  - destruct (filter_step self m tokenizers budget row st S) as (R & S1 & _).
    destruct (_filter self tokenizers row st) as [r st1]. cbn [fst snd] in *.
    subst r. destruct (IH st1 S1) as (st2 & -> & S2).
    exists st2. split; [|done]. cbn [List.filter]. by rewrite keeps_eq.
Qed.

Lemma dataset_filter_eq (dataset : Dataset) (st : FilterState) :
  cache_sound m tokenizers st ->
  fst (dataset_filter (_filter self tokenizers) dataset st)
  = Ok (mkDataset (List.filter (keeps m tokenizers) (train dataset))
                  (List.filter (keeps m tokenizers) (validation dataset))
                  (List.filter (keeps m tokenizers) (test dataset))).
Proof using budget.
  intros S. unfold dataset_filter.
  destruct (filter_rows_eq (train dataset) st S) as (st1 & -> & S1).
  destruct (filter_rows_eq (validation dataset) st1 S1) as (st2 & -> & S2).
  destruct (filter_rows_eq (test dataset) st2 S2) as (st3 & -> & S3).
  reflexivity.
Qed.
End PruneDataset.

Lemma download_eq (pretrained : str -> str -> list Z) (names : list str)
    (m : Z) (np : option Z) (loaded : Dataset) :
  let tokenizers := List.map (from_pretrained pretrained) names in
  fst (download pretrained (mkVariant (Some names) (Some m) np) loaded)
  = Ok (mkDataset (List.filter (keeps m tokenizers) (train loaded))
                  (List.filter (keeps m tokenizers) (validation loaded))
                  (List.filter (keeps m tokenizers) (test loaded))).
Proof.
  intros tokenizers. unfold download, prune. cbn.
  apply (dataset_filter_eq _ m); [done|apply cache_sound_init].
Qed.

Lemma keeps_iff (m : Z) (tokenizers : list Tokenizer) (sample : Doc) :
  keeps m tokenizers sample = true
  <-> forall tk, In tk tokenizers ->
        (Z.of_nat (length (input_ids tk (strip (article sample) ++ prompt_suffix)))
         <= m)%Z.
Proof. apply within_budget_iff. Qed.

Lemma filter_twice {A} (f : A -> bool) (l : list A) :
  List.filter f (List.filter f l) = List.filter f l.
Proof.
  induction l as [|a l IH]; [done|]. simpl.
  destruct (f a) eqn:E; [|done]. simpl. by rewrite E, IH.
Qed.

(** X11. With a tokenizer list and a budget, [download] returns the loaded
    dataset with, in every split, exactly the documents whose prompt has at
    most the budget of tokens under every tokenizer: the documents kept are
    the loaded ones, unchanged and in their order, and the cache shared by
    the three splits does not alter any verdict. *)
Theorem download_filters_every_split :
  forall (pretrained : str -> str -> list Z) (names : list str) (m : Z)
         (np : option Z) (loaded : Dataset),
    let tokenizers := List.map (from_pretrained pretrained) names in
    fst (download pretrained (mkVariant (Some names) (Some m) np) loaded)
    = Ok (mkDataset (List.filter (keeps m tokenizers) (train loaded))
                    (List.filter (keeps m tokenizers) (validation loaded))
                    (List.filter (keeps m tokenizers) (test loaded)))
    /\ (forall sample : Doc,
          keeps m tokenizers sample = true
          <-> forall name, In name names ->
                (Z.of_nat (length (pretrained name
                                     (strip (article sample) ++ prompt_suffix)))
                 <= m)%Z).
Proof.
  intros pretrained names m np loaded tokenizers. split; [apply download_eq|].
  intros sample. rewrite keeps_iff. subst tokenizers. split.
  - intros H name I. apply (H (from_pretrained pretrained name)).
    apply in_map_iff. eauto.
  - intros H tk I. apply in_map_iff in I as (name & <- & I). by apply H.
Qed.

(** X12. Pruning is idempotent: [download] over a dataset that the same
    variant has already pruned returns that dataset unchanged. *)
Theorem download_idempotent :
  forall (pretrained : str -> str -> list Z) (names : list str) (m : Z)
         (np : option Z) (loaded : Dataset),
    let self := mkVariant (Some names) (Some m) np in
    exists pruned,
      fst (download pretrained self loaded) = Ok pruned
      /\ fst (download pretrained self pruned) = Ok pruned.
Proof.
  intros pretrained names m np loaded self. subst self.
  eexists. split; [apply download_eq|].
  rewrite download_eq. cbn [train validation test].
  by rewrite !filter_twice.
Qed.

(** X13. Pruning is monotone: with a budget at least as large and no
    tokenizer that was not configured before, every document that was kept
    is still kept, in each split. *)
Theorem download_monotone :
  forall (pretrained : str -> str -> list Z) (names names' : list str)
         (m m' : Z) (np np' : option Z) (loaded : Dataset),
    (m <= m')%Z -> incl names' names ->
    exists pruned pruned',
      fst (download pretrained (mkVariant (Some names) (Some m) np) loaded)
        = Ok pruned
      /\ fst (download pretrained (mkVariant (Some names') (Some m') np') loaded)
        = Ok pruned'
      /\ (forall d, In d (train pruned) -> In d (train pruned'))
      /\ (forall d, In d (validation pruned) -> In d (validation pruned'))
      /\ (forall d, In d (test pruned) -> In d (test pruned')).
Proof.
  intros pretrained names names' m m' np np' loaded Hm Hn.
  eexists _, _. split; [apply download_eq|]. split; [apply download_eq|].
  cbn [train validation test].
  assert (K : forall d,
             keeps m (List.map (from_pretrained pretrained) names) d = true ->
             keeps m' (List.map (from_pretrained pretrained) names') d = true).
  { intros d. rewrite !keeps_iff. intros H tk I.
    apply in_map_iff in I as (name & <- & I).
    etrans; [|exact Hm]. apply H, in_map_iff. exists name. split; [done|].
    by apply Hn. }
  repeat split; intros d I; apply filter_In in I as [I E];
    apply filter_In; (split; [done|by apply K]).
Qed.

Lemma download_monotone_witness :
  exists pruned pruned',
    fst (download Examples.one_per_char
           (mkVariant (Some [lit "t"; lit "u"]) (Some 61%Z) None)
           (mkDataset [Examples.doc_ab; Examples.doc_abc] [] [])) = Ok pruned
    /\ fst (download Examples.one_per_char
              (mkVariant (Some [lit "t"]) (Some 62%Z) None)
              (mkDataset [Examples.doc_ab; Examples.doc_abc] [] [])) = Ok pruned'
    /\ (forall d, In d (train pruned) -> In d (train pruned'))
    /\ (forall d, In d (validation pruned) -> In d (validation pruned'))
    /\ (forall d, In d (test pruned) -> In d (test pruned')).
Proof.
  apply (download_monotone Examples.one_per_char [lit "t"; lit "u"] [lit "t"]
           61%Z 62%Z None None).
  - lia.
  - intros x [<-|[]]. left. reflexivity.
Defined.

Section NoRepeat.
Variables (self : Variant) (m : Z) (tokenizers : list Tokenizer).
Hypothesis budget : PRUNE_MAX_TOKENS self = Some m.
Hypothesis distinct : NoDup (List.map name_or_path tokenizers).





End NoRepeat.




(** ** Edge cases of pruning *)

Lemma filter_rows_no_tokenizer (self : Variant) (l : list Doc) (st : FilterState) :
  (forall text b, cache st !! text = Some b -> b = true) ->
  exists st',
    filter_rows (_filter self []) l st = (Ok l, st')
    /\ calls st' = calls st
    /\ (forall text b, cache st' !! text = Some b -> b = true).
Proof.
  revert st. induction l as [|row rest IH]; intros st C; cbn [filter_rows].
  - by exists st.
  - unfold _filter at 1. rewrite get_prune_text_ok.
    destruct (cache st !! _) as [b|] eqn:H.
    + rewrite (C _ _ H). destruct (IH st C) as (st' & -> & E & C'). by exists st'.
    + cbn [filter_loop].
      destruct (IH (cache_set st (strip (article row) ++ prompt_suffix) true))
        as (st' & -> & E & C').
      * intros text b. cbn [cache_set cache].
        destruct (decide (strip (article row) ++ prompt_suffix = text)) as [<-|N].
        -- rewrite lookup_insert_eq. by intros [= <-].
        -- rewrite lookup_insert_ne by done. apply C.
      * by exists st'.
Qed.

(** X16. With an empty tokenizer list (which is not [None]) [download]
    prunes nothing and invokes nothing: every document of every split is
    kept, whatever the budget, a missing budget included. *)
Theorem download_with_no_tokenizer :
  forall (pretrained : str -> str -> list Z) (max_tokens np : option Z)
         (loaded : Dataset),
    let r := download pretrained (mkVariant (Some []) max_tokens np) loaded in
    fst r = Ok loaded /\ calls (snd r) = [].
Proof.
  intros pretrained max_tokens np [tr va te] r. subst r.
  unfold download, prune, dataset_filter. cbn.
  destruct (filter_rows_no_tokenizer (mkVariant (Some []) max_tokens np) tr init_state)
    as (st1 & -> & E1 & C1).
  { intros text b H. simpl in H. by rewrite lookup_empty in H. }
  destruct (filter_rows_no_tokenizer (mkVariant (Some []) max_tokens np) va st1 C1)
    as (st2 & -> & E2 & C2).
  destruct (filter_rows_no_tokenizer (mkVariant (Some []) max_tokens np) te st2 C2)
    as (st3 & -> & E3 & C3).
  cbn. split; [done|]. by rewrite E3, E2, E1.
Qed.


(** ** Spacing of the rendered examples *)

Lemma normalize_doc_trimmed (doc : Doc) (ys : list Doc) :
  normalize_doc doc = Ok ys ->
  exists d, ys = [d] /\ trimmed (article d) /\ trimmed (highlights d)
            /\ highlights d <> [].
Proof.
  intros H. destruct (normalize_doc_cases doc) as [[_ E]|[NE E]];
    rewrite E in H; [done|]. injection H as <-.
  eexists. split; [reflexivity|]. cbn [article highlights].
  split; [apply strip_trimmed|].
  destruct (decide _) as [L|L].
  - rewrite app_nil_r. split; [apply strip_trimmed|done].
  - split; [apply trimmed_snoc_DOT; [apply strip_trimmed|done]|].
    by destruct (strip (highlights doc)).
Qed.

Lemma docs_of_trimmed (split : list Doc) (d : Doc) :
  In d (fst (docs_of split)) ->
  trimmed (article d) /\ trimmed (highlights d) /\ highlights d <> [].
Proof.
  induction split as [|doc rest IH]; cbn [docs_of]; [done|].
  destruct (normalize_doc doc) as [ys|e] eqn:E; [|done].
  destruct (docs_of rest) as [zs stop]. cbn [fst] in *.
  intros H. apply in_app_or in H as [H|H]; [|by apply IH].
  apply normalize_doc_trimmed in E as (d' & -> & P).
  destruct H as [<-|[]]. exact P.
Qed.

(** X18. The documents the iterators yield are stripped: [strip] changes
    neither their [article] nor their [highlights], and [doc_to_target] is
    one space followed by a character that is not white space, so the
    prompt and the target join with exactly one space after "Answer:". *)
Theorem yielded_documents_are_stripped :
  forall (dataset : Dataset) (d : Doc),
    In d (fst (training_docs dataset) ++ fst (validation_docs dataset)
          ++ fst (test_docs dataset)) ->
    strip (article d) = article d
    /\ strip (highlights d) = highlights d
    /\ exists (c : char) (rest : str),
         doc_to_target d = SPACE :: c :: rest /\ isspace c = false.
Proof.
  intros dataset d H.
  assert (T : trimmed (article d) /\ trimmed (highlights d) /\ highlights d <> []).
  { unfold training_docs, validation_docs, test_docs in H.
    apply in_app_or in H as [H|H]; [by eapply docs_of_trimmed|].
    apply in_app_or in H as [H|H]; by eapply docs_of_trimmed. }
  destruct T as (Ta & Th & NE).
  split; [by apply trimmed_strip|]. split; [by apply trimmed_strip|].
  unfold doc_to_target. destruct (highlights d) as [|c rest]; [done|].
  exists c, rest. split; [reflexivity|].
  destruct Th as [L _]. by apply lstrip_cons_fix in L.
Qed.

Lemma yielded_documents_are_stripped_witness :
  strip (article (mkDoc (lit "a") (lit "a b."))) = lit "a".
Proof.
  apply (yielded_documents_are_stripped (mkDataset [Examples.doc_ab] [] [])
           (mkDoc (lit "a") (lit "a b."))).
  vm_compute. left. reflexivity.
Defined.
